(** * Intent matching and response resolution of the healthcare chatbot

    A shallow embedding of [app.py]: the normalizer, the vocabulary index,
    the special pattern detector, the matching cascade, the language
    heuristic, the response resolver and the [/chat] handler, followed by
    the properties of the specification that were checked against them.

    Modelling conventions.
    - A Python [str] is a [string]; a character stands for the code point
      of the same number, so the texts covered are those over the code
      points below 256.  Case mapping and the whitespace class are the
      Unicode ones restricted to that range.  The fixed reply texts hold a
      few characters beyond it; they are only concatenated, never
      inspected, and appear here in their UTF-8 encoding.
    - A Python [dict] is an association list in insertion order; assigning
      to a key that is present replaces the value in place.
    - A Python [float] is an IEEE-754 binary64 value ([spec_float] with
      precision 53 and maximal exponent 1024), with the division,
      multiplication and comparison of [SpecFloat]; the true division of
      two [int]s rounds their exact quotient.
    - The question-answering pipeline, the translator and
      [difflib.get_close_matches] are external: they are variables of the
      section that holds the program. *)

From Stdlib Require Import List Bool Arith ZArith Lia.
From Stdlib Require Import Ascii String.
From Stdlib Require Import Floats.SpecFloat.
Import ListNotations.

Local Open Scope string_scope.
Local Open Scope list_scope.

(** ** Characters and texts *)

Module Chars.

Definition code (c : ascii) : nat := nat_of_ascii c.

Definition between (lo hi n : nat) : bool := Nat.leb lo n && Nat.leb n hi.

(** The class [[a-z0-9]] of the regular expressions. *)
Definition is_alnum (c : ascii) : bool :=
  between 97 122 (code c) || between 48 57 (code c).

(** Python's whitespace ([\s] on [str], [str.strip], [str.split]) below
    code point 256. *)
Definition is_space (c : ascii) : bool :=
  between 9 13 (code c) || between 28 32 (code c)
  || Nat.eqb (code c) 133 || Nat.eqb (code c) 160.

(** The class [[^a-z0-9\s]]. *)
Definition is_junk (c : ascii) : bool := negb (is_alnum c || is_space c).

(** [str.lower] on one character: [A-Z] and the Latin-1 capitals. *)
Definition lower_char (c : ascii) : ascii :=
  let n := code c in
  if between 65 90 n || (between 192 222 n && negb (Nat.eqb n 215))
  then ascii_of_nat (n + 32) else c.

Definition space : ascii := " "%char.

Definition is_blank (c : ascii) : bool := Ascii.eqb c space.

End Chars.
Import Chars.

Module Text.

Definition lower (s : list ascii) : list ascii := map lower_char s.

(** [re.sub(p+, ' ', s)]: every maximal run of characters of class [p]
    becomes one space.  [inrun] tells that the previous character was in
    a run already replaced. *)
Fixpoint sub_runs (p : ascii -> bool) (inrun : bool) (s : list ascii)
  : list ascii :=
  match s with
  | [] => []
  | c :: s' =>
      if p c
      then if inrun then sub_runs p true s' else space :: sub_runs p true s'
      else c :: sub_runs p false s'
  end.

Fixpoint lstrip (s : list ascii) : list ascii :=
  match s with
  | [] => []
  | c :: s' => if is_space c then lstrip s' else s
  end.

Fixpoint rstrip (s : list ascii) : list ascii :=
  match s with
  | [] => []
  | c :: s' =>
      match rstrip s' with
      | [] => if is_space c then [] else [c]
      | r => c :: r
      end
  end.

(** [str.strip()] *)
Definition strip (s : list ascii) : list ascii := rstrip (lstrip s).

(** [str.split()] : the maximal runs of non-whitespace characters.
    [cur] is the word being read, reversed. *)
Fixpoint split_from (cur : list ascii) (s : list ascii) : list (list ascii) :=
  match s with
  | [] => match cur with [] => [] | _ => [rev cur] end
  | c :: s' =>
      if is_space c
      then match cur with
           | [] => split_from [] s'
           | _ => rev cur :: split_from [] s'
           end
      else split_from (c :: cur) s'
  end.

Definition split (s : list ascii) : list (list ascii) := split_from [] s.

Fixpoint starts_with (p s : list ascii) : bool :=
  match p, s with
  | [], _ => true
  | _ :: _, [] => false
  | a :: p', b :: s' => Ascii.eqb a b && starts_with p' s'
  end.

(** [p in s] on strings. *)
Fixpoint contains (p s : list ascii) : bool :=
  starts_with p s
  || match s with
     | [] => false
     | _ :: s' => contains p s'
     end.

End Text.

(** The same operations on [string]. *)

Definition chars (s : string) : list ascii := list_ascii_of_string s.
Definition text (l : list ascii) : string := string_of_list_ascii l.

Definition str_lower (s : string) : string := text (Text.lower (chars s)).
Definition str_strip (s : string) : string := text (Text.strip (chars s)).
Definition str_split (s : string) : list string :=
  map text (Text.split (chars s)).
Definition str_in (p s : string) : bool := Text.contains (chars p) (chars s).
Definition str_len (s : string) : nat := String.length s.

(** Truth value of a [str]: the empty string is false. *)
Definition truthy (s : string) : bool := negb (String.eqb s "").

(** ** 4. Matching functions: [normalize] *)

Definition normalize_chars (s : list ascii) : list ascii :=
  let s := Text.lower s in
  let s := Text.sub_runs is_junk false s in
  Text.strip (Text.sub_runs is_space false s).

(** [normalize(text)]; [None] stands for Python's [None]. *)
Definition normalize (t : option string) : string :=
  let t := match t with Some s => s | None => "" end in
  text (normalize_chars (chars t)).

(** ** Python dictionaries *)

Module Dict.

Definition dict (V : Type) : Type := list (string * V).

Fixpoint get {V} (k : string) (d : dict V) : option V :=
  match d with
  | [] => None
  | (k', v) :: d' => if String.eqb k' k then Some v else get k d'
  end.

(** [k in d] *)
Definition mem {V} (k : string) (d : dict V) : bool :=
  match get k d with Some _ => true | None => false end.

(** [d[k] = v]: a key that is present keeps its place. *)
Fixpoint set {V} (k : string) (v : V) (d : dict V) : dict V :=
  match d with
  | [] => [(k, v)]
  | (k', v') :: d' =>
      if String.eqb k' k then (k', v) :: d' else (k', v') :: set k v d'
  end.

Definition keys {V} (d : dict V) : list string := map fst d.

End Dict.

(** ** Python floats *)

Module Float.

Definition prec : Z := 53.
Definition emax : Z := 1024.

Definition float : Type := spec_float.

Definition zero : float := S754_zero false.

(** An [int] as a binary number of exponent 0; the mantissa is the integer
    itself and need not fit the precision. *)
Definition of_int (n : nat) : float :=
  match Z.of_nat n with
  | Zpos p => S754_finite false p 0
  | _ => S754_zero false
  end.

Definition mul (x y : float) : float := SFmul prec emax x y.

(** [a / b] on [int]s: the float nearest to the quotient. *)
Definition true_div (a b : nat) : float := SFdiv prec emax (of_int a) (of_int b).

(** The value of a decimal literal: the float nearest to [n / d]. *)
Definition ratio (n d : nat) : float := true_div n d.

(** [x > y] *)
Definition gtb (x y : float) : bool := SFltb y x.

(** The sign bit is clear and the value is not a NaN. *)
Definition nonneg (x : float) : bool :=
  match x with
  | S754_zero false | S754_infinity false | S754_finite false _ _ => true
  | _ => false
  end.

(** Finite and above zero. *)
Definition positive_finite (x : float) : bool :=
  match x with
  | S754_finite false _ _ => true
  | _ => false
  end.

(** The place of a non-negative float in the order of [SFcompare]: zero,
    then the finite values by exponent and mantissa, then infinity. *)
Definition rank (x : float) : Z * Z * Z :=
  match x with
  | S754_finite _ m e => (1, e, Zpos m)
  | S754_infinity _ => (2, 0, 0)
  | _ => (0, 0, 0)
  end%Z.

Definition rank_lt (a b : Z * Z * Z) : Prop :=
  let '(a1, a2, a3) := a in
  let '(b1, b2, b3) := b in
  (a1 < b1 \/ (a1 = b1 /\ (a2 < b2 \/ (a2 = b2 /\ a3 < b3))))%Z.

End Float.

(** ** 1. The knowledge base, the glossary and the medicines *)

Inductive lang : Set := En | St.

(** An item of [kb.json], [glossary.json] or [medicines.json]: the tag list
    (absent means empty) and the texts per language (absent means [None]). *)
Record entry : Type := mk_entry {
  entry_tags : list string;
  entry_en : option string;
  entry_st : option string
}.

(** [item.get(lang)] *)
Definition entry_get (e : entry) (l : lang) : option string :=
  match l with En => entry_en e | St => entry_st e end.

(** The answer of the question-answering pipeline. *)
Record qa_result : Type := mk_qa_result {
  qa_answer : string;
  qa_score : Float.float
}.

(** What the module loads or imports: the three collections, the
    question-answering pipeline ([None] when it failed to load; a call
    that raises returns [None]), the translator ([None] when it raises) and
    [difflib.get_close_matches] with [n=1] and [cutoff=0.4]. *)
Record env : Type := mk_env {
  KB : Dict.dict entry;
  GLOSSARY : Dict.dict entry;
  MEDICINES : Dict.dict entry;
  qa_model : option (string -> string -> option qa_result);
  google_translate : lang -> lang -> string -> option string;
  get_close_matches : string -> list string -> list string
}.

(** ** 3. Vocabulary with priority matching *)

Inductive source_type : Set := SrcKb | SrcGlossary | SrcMedicine.

Inductive question_type : Set := General | Examples | Definition_.

Record pattern_info : Type := mk_pattern_info {
  patterns : list string;
  medicine_key : option string;
  glossary_key : option string;
  priority : nat
}.

Definition SPECIAL_MEDICATION_PATTERNS : Dict.dict pattern_info :=
  [ ("arv_examples",
     mk_pattern_info
       ["examples of arv"; "arv examples"; "list of arv"; "arv drugs";
        "hiv drugs list"; "arv medications"; "types of arv"; "arv list";
        "hiv medications"; "give me examples of arv"]
       (Some "arv_examples") None 10);
    ("arv_definition",
     mk_pattern_info
       ["what is arv"; "arv keng"; "arv meaning"; "define arv"; "arv ke eng";
        "art keng"; "art ke eng"]
       None (Some "art") 9);
    ("hiv_definition",
     mk_pattern_info
       ["what is hiv"; "hiv keng"; "hiv meaning"; "define hiv"; "hiv ke eng"]
       None (Some "hiv") 9) ].

(** A value of [VOCAB]: [(type, key, weight)]. *)
Definition vocab_value : Type := (source_type * string * Float.float)%type.

Definition weight_kb : Float.float := Float.ratio 1 1.
Definition weight_glossary : Float.float := Float.ratio 1 1.
Definition weight_medicine : Float.float := Float.ratio 12 10.
Definition weight_synonym : Float.float := Float.ratio 8 10.

Definition medication_terms : list string :=
  ["arv"; "art"; "hiv drug"; "antiretroviral"; "medication"; "medicine";
   "drug"; "pill"; "tablet"].

(** [for key, item in KB.items(): for tag in item.get('tags', []): ...] *)
Definition add_kb (kb : Dict.dict entry) (v : Dict.dict vocab_value)
  : Dict.dict vocab_value :=
  fold_left
    (fun v (ki : string * entry) =>
       fold_left
         (fun v tag => Dict.set (str_lower tag) (SrcKb, fst ki, weight_kb) v)
         (entry_tags (snd ki)) v)
    kb v.

(** [for term in GLOSSARY.keys(): ...] *)
Definition add_glossary (g : Dict.dict entry) (v : Dict.dict vocab_value)
  : Dict.dict vocab_value :=
  fold_left
    (fun v term => Dict.set (str_lower term) (SrcGlossary, term, weight_glossary) v)
    (Dict.keys g) v.

(** [for med in MEDICINES.keys(): ...] *)
Definition add_medicines (m : Dict.dict entry) (v : Dict.dict vocab_value)
  : Dict.dict vocab_value :=
  fold_left
    (fun v med => Dict.set (str_lower med) (SrcMedicine, med, weight_medicine) v)
    (Dict.keys m) v.

(** [for term in medication_terms: if term not in VOCAB: ...] *)
Definition add_medication_terms (terms : list string) (v : Dict.dict vocab_value)
  : Dict.dict vocab_value :=
  fold_left
    (fun v term =>
       if negb (Dict.mem term v)
       then Dict.set term (SrcMedicine, "arv_examples", weight_synonym) v
       else v)
    terms v.

Definition build_vocab (kb g m : Dict.dict entry) : Dict.dict vocab_value :=
  add_medication_terms medication_terms
    (add_medicines m (add_glossary g (add_kb kb []))).

Definition VOCAB (E : env) : Dict.dict vocab_value :=
  build_vocab (KB E) (GLOSSARY E) (MEDICINES E).

(** ** Exceptions and the log of calls *)

Inductive exn : Set :=
| KeyError (k : string)
| TypeError.

Inductive result (A : Type) : Type :=
| Ok (a : A)
| Raise (e : exn).
Arguments Ok {A} a.
Arguments Raise {A} e.

(** The calls a request makes to the components of the engine. *)
Inductive call : Set :=
| CallIsSesotho (text : string)
| CallMatching (text : string)
| CallResponse (key : string) (q : question_type) (l : lang)
| CallQA (question : string) (l : lang).

(** A computation of the handler: the calls made so far and the outcome. *)
Definition M (A : Type) : Type := (list call * result A)%type.

Definition ret {A} (a : A) : M A := ([], Ok a).

Definition bind {A B} (m : M A) (f : A -> M B) : M B :=
  match m with
  | (log, Ok a) => let (log', r) := f a in (log ++ log', r)
  | (log, Raise e) => (log, Raise e)
  end.

(** A logged call of a function that returns. *)
Definition invoke {A} (c : call) (a : A) : M A := ([c], Ok a).

(** A logged call of a function that may raise. *)
Definition invoke_result {A} (c : call) (r : result A) : M A := ([c], r).

Notation "x <- m ;; k" := (bind m (fun x => k))
  (at level 61, m at next level, right associativity).

(** ** 4. Matching functions *)

(** The tuple [detect_special_medication_patterns] returns. *)
Definition special_match : Type :=
  (source_type * string * string * nat)%type.

(** The inner loop: [for pattern in pattern_info['patterns']]. *)
Fixpoint scan_patterns (info : pattern_info) (ps : list string)
  (clean : string) : option special_match :=
  match ps with
  | [] => None
  | pattern :: ps' =>
      if str_in pattern clean
      then match medicine_key info with
           | Some k => Some (SrcMedicine, k, pattern, priority info)
           | None =>
               match glossary_key info with
               | Some k => Some (SrcGlossary, k, pattern, priority info)
               | None => scan_patterns info ps' clean
               end
           end
      else scan_patterns info ps' clean
  end.

(** The outer loop: [for pattern_name, pattern_info in ....items()]. *)
Fixpoint scan_table (table : Dict.dict pattern_info) (clean : string)
  : option special_match :=
  match table with
  | [] => None
  | (_, info) :: table' =>
      match scan_patterns info (patterns info) clean with
      | Some hit => Some hit
      | None => scan_table table' clean
      end
  end.

Definition detect_special_medication_patterns (text : string)
  : option special_match :=
  let clean := normalize (Some text) in
  scan_table SPECIAL_MEDICATION_PATTERNS clean.

(** The tuple [advanced_topic_matching] returns. *)
Definition matching : Type :=
  (option source_type * option string * option string * question_type)%type.

Definition no_match : matching := (None, None, None, General).

Definition found (typ : source_type) (key matched : string)
  (q : question_type) : matching :=
  (Some typ, Some key, Some matched, q).

(** SECOND: exact matches in [VOCAB]. *)
Fixpoint exact_match (vocab : Dict.dict vocab_value) (clean : string)
  : option matching :=
  match vocab with
  | [] => None
  | (vocab_term, (typ, key, _)) :: vocab' =>
      if String.eqb vocab_term clean
      then Some (found typ key vocab_term General)
      else exact_match vocab' clean
  end.

(** THIRD: the query contains a vocabulary term. *)
Fixpoint substring_match (vocab : Dict.dict vocab_value) (clean : string)
  : option matching :=
  match vocab with
  | [] => None
  | (vocab_term, (typ, key, _)) :: vocab' =>
      if Nat.ltb 2 (str_len vocab_term) && str_in vocab_term clean
      then Some (found typ key vocab_term General)
      else substring_match vocab' clean
  end.

(** [any(word in clean for word in words)] *)
Definition any_in (words : list string) (clean : string) : bool :=
  existsb (fun word => str_in word clean) words.

Definition domain_synonyms : list string :=
  ["arv"; "art"; "hiv drug"; "antiretroviral"].

(** FOURTH: medication-specific queries. *)
Definition medication_match (clean : string) : option matching :=
  if any_in domain_synonyms clean
  then if any_in ["example"; "list"; "type"; "name"] clean
       then Some (found SrcMedicine "arv_examples" "arv examples" Examples)
       else Some (found SrcGlossary "art" "art" Definition_)
  else None.

(** [set(...)] of a list of words, and [a & b]. *)
Definition word_set (ws : list string) : list string :=
  nodup String.string_dec ws.

Definition mem_word (w : string) (ws : list string) : bool :=
  existsb (String.eqb w) ws.

Definition common (a b : list string) : list string :=
  filter (fun w => mem_word w b) a.

(** The score of one vocabulary term, [None] when no word is shared. *)
Definition overlap_score (query_words : list string) (vocab_term : string)
  (weight : Float.float) : option Float.float :=
  let vocab_words := word_set (str_split vocab_term) in
  let common_words := common query_words vocab_words in
  match common_words with
  | [] => None
  | _ =>
      Some (Float.mul
              (Float.true_div (List.length common_words)
                 (Nat.max (List.length query_words) 1))
              weight)
  end.

(** The state of the loop: [(best_match, best_score)]. *)
Definition best : Type :=
  (option (source_type * string * string) * Float.float)%type.

Definition overlap_step (query_words : list string) (b : best)
  (item : string * vocab_value) : best :=
  let '(vocab_term, (typ, key, weight)) := item in
  match overlap_score query_words vocab_term weight with
  | Some score =>
      if Float.gtb score (snd b)
      then (Some (typ, key, vocab_term), score)
      else b
  | None => b
  end.

Definition overlap_best (vocab : Dict.dict vocab_value) (clean : string)
  : best :=
  let query_words := word_set (str_split clean) in
  fold_left (overlap_step query_words) vocab (None, Float.zero).

Definition overlap_threshold : Float.float := Float.ratio 3 10.

(** FIFTH: word-by-word matching.  Unpacking [best_match] when it is
    [None] raises. *)
Definition overlap_match (vocab : Dict.dict vocab_value) (clean : string)
  : result (option matching) :=
  let '(best_match, best_score) := overlap_best vocab clean in
  if Float.gtb best_score overlap_threshold
  then match best_match with
       | Some (typ, key, vocab_term) =>
           Ok (Some (found typ key vocab_term General))
       | None => Raise TypeError
       end
  else Ok None.

(** SIXTH: fuzzy matching. *)
Definition fuzzy_match (E : env) (vocab : Dict.dict vocab_value)
  (clean : string) : result matching :=
  let all_terms := Dict.keys vocab in
  match get_close_matches E clean all_terms with
  | m :: _ =>
      match Dict.get m vocab with
      | Some (typ, key, _) => Ok (found typ key m General)
      | None => Raise (KeyError m)
      end
  | [] => Ok no_match
  end.

Definition advanced_topic_matching (E : env) (user_text : string)
  : result matching :=
  if negb (truthy user_text) || negb (truthy (str_strip user_text))
  then Ok no_match
  else
    let clean := normalize (Some user_text) in
    match detect_special_medication_patterns user_text with
    | Some (typ, key, matched, _) =>
        Ok (found typ key matched
              (if str_in "examples" matched then Examples else Definition_))
    | None =>
    match exact_match (VOCAB E) clean with
    | Some m => Ok m
    | None =>
    match substring_match (VOCAB E) clean with
    | Some m => Ok m
    | None =>
    match medication_match clean with
    | Some m => Ok m
    | None =>
    match overlap_match (VOCAB E) clean with
    | Raise e => Raise e
    | Ok (Some m) => Ok m
    | Ok None => fuzzy_match E (VOCAB E) clean
    end end end end end.

(** ** 5. Response generation *)

(** Truth value of [d.get(k)]: [None] and the empty string are false. *)
Definition truthy_opt (o : option string) : bool :=
  match o with Some s => truthy s | None => false end.

(** [a or b] *)
Definition py_or (a b : option string) : option string :=
  if truthy_opt a then a else b.

(** [item.get(lang) or item.get('en')] *)
Definition localized (e : entry) (l : lang) : option string :=
  py_or (entry_get e l) (entry_get e En).

(** [if key in d: content = ...; if content: return content], with what
    follows as [otherwise]. *)
Definition lookup_in (d : Dict.dict entry) (key : string) (l : lang)
  (otherwise : option string) : option string :=
  match Dict.get key d with
  | Some e =>
      let content := localized e l in
      if truthy_opt content then content else otherwise
  | None => otherwise
  end.

Definition generate_targeted_response (E : env) (key : string)
  (q : question_type) (l : lang) : option string :=
  lookup_in (KB E) key l
    (lookup_in (MEDICINES E) key l
       (lookup_in (GLOSSARY E) key l None)).

(** ** 7. Translation helpers *)

Definition sesotho_words : list string :=
  ["ke"; "ha"; "hona"; "lefu"; "joang"; "tse"; "tsa"; "mali"; "ea"; "eng";
   "ho"; "le"; "ka"; "lumela"; "ntate"; "me"; "ena"; "keng"].

Definition is_sesotho (text : string) : bool :=
  let words := word_set (str_split (normalize (Some text))) in
  let overlap := List.length (common words (word_set sesotho_words)) in
  Nat.leb 1 overlap.

Definition translate (E : env) (source target : lang) (text : string)
  : string :=
  if Nat.ltb 3 (str_len (str_strip text))
  then match google_translate E source target text with
       | Some t => t
       | None => text
       end
  else text.

Definition translate_to_english (E : env) (text : string) : string :=
  translate E St En text.

Definition translate_to_sesotho (E : env) (text : string) : string :=
  translate E En St text.

(** ** 6. QA fallback *)

(** [item.get('en', '')] *)
Definition en_or_empty (e : entry) : string :=
  match entry_en e with Some s => s | None => "" end.

Definition qa_context (E : env) : string :=
  String.concat " "
    (map (fun ki => en_or_empty (snd ki)) (KB E)
     ++ map (fun ki => en_or_empty (snd ki)) (GLOSSARY E)
     ++ map (fun ki => en_or_empty (snd ki)) (MEDICINES E)).

Definition qa_threshold : Float.float := Float.ratio 1 10.

Definition smart_qa_fallback (E : env) (question : string) (l : lang)
  : option string :=
  match qa_model E with
  | None => None
  | Some model =>
      let question_en :=
        match l with St => translate_to_english E question | En => question end in
      match model question_en (qa_context E) with
      | None => None
      | Some r =>
          let answer := str_strip (qa_answer r) in
          if truthy answer && Float.gtb (qa_score r) qa_threshold
             && Nat.leb 2 (List.length (str_split answer))
          then Some (match l with
                     | St => translate_to_sesotho E answer
                     | En => answer
                     end)
          else None
      end
  end.

(** ** 8. Routes *)

(** A JSON value, as far as the handler tells values apart. *)
Inductive json : Type :=
| JNull
| JBool (b : bool)
| JNumber (n : Z)
| JString (s : string)
| JCompound.

(** The body of a request: the [message] and [lang] members, when present. *)
Record request : Type := mk_request {
  message : option json;
  req_lang : option json
}.

Definition newline : string := String (ascii_of_nat 10) "".

Definition prompt_response : string := "⚠️ Please type a question.".

Definition fallback_responses (l : lang) : string :=
  match l with
  | En =>
      "I understand you're asking about health. Could you please rephrase your question or ask about:"
      ++ newline ++ "• HIV treatment and ARVs"
      ++ newline ++ "• Maternal or child health"
      ++ newline ++ "• Nutrition or hygiene"
      ++ newline ++ "• Specific medications"
      ++ newline ++ "• Disease symptoms or prevention"
  | St =>
      "Ke utloisisa hore u botsa ka bophelo. Ka kopo, buisa potso kapa u botsise ka:"
      ++ newline ++ "• Kalafo ea HIV le li-ARV"
      ++ newline ++ "• Bophelo ba bokhachane kapa bana"
      ++ newline ++ "• Phepo kapa bohloeki"
      ++ newline ++ "• Meriana e itseng"
      ++ newline ++ "• Matšoao a malwetse kapa thibelo"
  end.

Definition disclaimer (l : lang) : string :=
  match l with
  | En =>
      newline ++ newline
      ++ "Note: This is health information, not medical advice. Consult a healthcare professional."
  | St =>
      newline ++ newline
      ++ "Tlhokomeliso: Tsena ke tlhahisoleseding ya bophelo, eseng keletso ea bongaka. Buisana le setsebi sa bophelo."
  end.

(** [lang = data.get('lang', 'en'); lang = lang if lang in ('en', 'st') else 'en'] *)
Definition requested_lang (data : request) : lang :=
  match req_lang data with
  | Some (JString s) => if String.eqb s "st" then St else En
  | _ => En
  end.

(** [not reply] *)
Definition no_reply (reply : option string) : bool := negb (truthy_opt reply).

(** The test of the final fallback on the normalized text: the key it
    resolves, if any. *)
Definition last_resort_key (clean_text : string)
  : option (string * question_type) :=
  if any_in ["arv"; "art"; "hiv drug"; "antiretroviral"] clean_text
  then if any_in ["example"; "list"; "type"] clean_text
       then Some ("arv_examples", Examples)
       else Some ("art", Definition_)
  else None.

(** The part of [chat] after the message was found to be a non-blank
    string. *)
Definition answer (E : env) (text : string) (l : lang) : M string :=
  let text := str_strip text in
  (* Detect language *)
  sesotho <- match l with
             | En => invoke (CallIsSesotho text) (is_sesotho text)
             | St => ret false
             end ;;
  let l := if sesotho then St else l in
  (* Advanced topic matching *)
  m <- invoke_result (CallMatching text) (advanced_topic_matching E text) ;;
  let '(typ, key, matched, q) := m in
  (* Generate response based on match type *)
  reply <- match typ, key with
           | Some _, Some key =>
               if truthy key
               then invoke (CallResponse key q l)
                      (generate_targeted_response E key q l)
               else ret None
           | _, _ => ret None
           end ;;
  (* Smart QA fallback *)
  reply <- (if no_reply reply
            then match qa_model E with
                 | Some _ => invoke (CallQA text l) (smart_qa_fallback E text l)
                 | None => ret reply
                 end
            else ret reply) ;;
  (* Final fallback *)
  reply <- (if no_reply reply
            then match last_resort_key (normalize (Some text)) with
                 | Some (key, q) =>
                     invoke (CallResponse key q l)
                       (generate_targeted_response E key q l)
                 | None => ret reply
                 end
            else ret reply) ;;
  (* Ultimate fallback *)
  let reply :=
    if no_reply reply then fallback_responses l
    else match reply with Some r => r | None => "" end in
  ret (reply ++ disclaimer l)%string.

Definition chat (E : env) (data : request) : M string :=
  let text := match message data with Some v => v | None => JString "" end in
  let l := requested_lang data in
  match text with
  | JString text =>
      if Nat.eqb (str_len (str_strip text)) 0
      then ret prompt_response
      else answer E text l
  | _ => ret prompt_response
  end.

(** ** Predicates of the specification *)

(** Every character that is not of [[a-z0-9]] is a space followed by a
    character of [[a-z0-9]]. *)
Fixpoint wellspaced (s : list ascii) : bool :=
  match s with
  | [] => true
  | c :: s' =>
      if is_alnum c then wellspaced s'
      else is_blank c
           && match s' with [] => false | d :: _ => is_alnum d end
           && wellspaced s'
  end.

(** Words of [[a-z0-9]] separated by single spaces. *)
Definition canonical (s : list ascii) : bool :=
  match s with
  | [] => true
  | c :: _ => is_alnum c && wellspaced s
  end.

(** Characters of [[a-z0-9]] and spaces, no space after a space; [prev]
    tells that the character before was a space. *)
Fixpoint single_spaced (prev : bool) (s : list ascii) : bool :=
  match s with
  | [] => true
  | c :: s' =>
      if is_alnum c then single_spaced false s'
      else is_blank c && negb prev && single_spaced true s'
  end.

(** The target of a pattern: the medicine key when there is one, else the
    glossary key. *)
Definition pattern_target (info : pattern_info) : option (source_type * string) :=
  match medicine_key info with
  | Some k => Some (SrcMedicine, k)
  | None =>
      match glossary_key info with
      | Some k => Some (SrcGlossary, k)
      | None => None
      end
  end.

(** The trigger phrases of a table in declaration order, pattern after
    pattern, each with the target and the priority of its pattern. *)
Definition triggers_of (table : Dict.dict pattern_info)
  : list (string * (source_type * string * nat)) :=
  flat_map
    (fun ni : string * pattern_info =>
       match pattern_target (snd ni) with
       | Some (typ, key) =>
           map (fun p => (p, (typ, key, priority (snd ni)))) (patterns (snd ni))
       | None => []
       end)
    table.

Definition declared_triggers : list (string * (source_type * string * nat)) :=
  triggers_of SPECIAL_MEDICATION_PATTERNS.

(** The first declared trigger phrase that the normalized text contains. *)
Definition first_trigger (clean : string)
  : option (string * (source_type * string * nat)) :=
  find (fun d => str_in (fst d) clean) declared_triggers.

(** The question type the specification gives to a special pattern hit. *)
Definition special_question_type (typ : source_type) (matched : string)
  : question_type :=
  match typ with
  | SrcMedicine => if str_in "examples" matched then Examples else Definition_
  | _ => Definition_
  end.

(** ** Sample data *)

(** No question-answering pipeline, a translator that always fails and a
    [get_close_matches] that finds nothing. *)
Definition offline (kb g m : Dict.dict entry) : env :=
  mk_env kb g m None (fun _ _ _ => None) (fun _ _ => []).

(** A small knowledge base; the fact carries the tag "what is arv", so
    that the vocabulary has an exact match for that question. *)
Definition sample_env : env :=
  offline
    [("hiv_treatment",
      mk_entry ["hiv treatment"; "what is arv"]
        (Some "HIV is treated with antiretroviral medicines taken every day.")
        None)]
    [("art",
      mk_entry [] (Some "ART means antiretroviral therapy.")
        (Some "ART ke kalafo ea li-antiretroviral."));
     ("hiv",
      mk_entry [] (Some "HIV is the human immunodeficiency virus.") None)]
    [("arv_examples",
      mk_entry [] (Some "Examples of ARVs: tenofovir, lamivudine, dolutegravir.")
        None)].

(** The text a collection offers for a key: the entry's text in the
    requested language when that is non-empty, else its English text when
    that is non-empty. *)
Definition usable_text (d : Dict.dict entry) (key : string) (l : lang)
  : option string :=
  match Dict.get key d with
  | Some e =>
      match entry_get e l with
      | Some c => if truthy c then Some c else
                    match entry_get e En with
                    | Some c' => if truthy c' then Some c' else None
                    | None => None
                    end
      | None =>
          match entry_get e En with
          | Some c' => if truthy c' then Some c' else None
          | None => None
          end
      end
  | None => None
  end.

(** A fact that has a Sesotho text only, and a glossary entry of the same
    key. *)
Definition sesotho_only_fact_env : env :=
  offline
    [("art", mk_entry ["art"] None (Some "ART ke kalafo ea HIV."))]
    [("art", mk_entry [] (Some "ART means antiretroviral therapy.") None)]
    [].

(** ** The insertions of the vocabulary stages *)

(** The pairs [(term, value)] that the Facts stage produces, in order. *)
Definition kb_insertions (kb : Dict.dict entry) : list (string * vocab_value) :=
  flat_map
    (fun ki : string * entry =>
       map (fun tag => (str_lower tag, (SrcKb, fst ki, weight_kb)))
         (entry_tags (snd ki)))
    kb.

Definition glossary_insertions (g : Dict.dict entry)
  : list (string * vocab_value) :=
  map (fun term => (str_lower term, (SrcGlossary, term, weight_glossary)))
    (Dict.keys g).

Definition medicine_insertions (m : Dict.dict entry)
  : list (string * vocab_value) :=
  map (fun med => (str_lower med, (SrcMedicine, med, weight_medicine)))
    (Dict.keys m).

Definition synonym_value : vocab_value :=
  (SrcMedicine, "arv_examples", weight_synonym).

Definition synonym_insertions : list (string * vocab_value) :=
  map (fun term => (term, synonym_value)) medication_terms.

(** The value of the last pair of a list of insertions that has the term. *)
Definition last_writer (ins : list (string * vocab_value)) (term : string)
  : option vocab_value :=
  Dict.get term (rev ins).

(** A glossary that defines "arv". *)
Definition arv_glossary_env : env :=
  offline [] [("ARV", mk_entry [] (Some "ARVs are antiretroviral medicines.") None)] [].

(** A fact tagged "name" that has no text, next to the medicine examples
    and the glossary entry of the acronym. *)
Definition name_tag_env : env :=
  offline
    [("naming", mk_entry ["name"] None None)]
    [("art", mk_entry [] (Some "ART means antiretroviral therapy.") None)]
    [("arv_examples",
      mk_entry [] (Some "Examples of ARVs: tenofovir, lamivudine, dolutegravir.")
        None)].

Definition is_some {A} (o : option A) : bool :=
  match o with Some _ => true | None => false end.

(** The key a domain-keyword test routes to. *)
Definition routed_key (m : option matching) : option string :=
  match m with Some (_, key, _, _) => key | None => None end.

(** ** The word-overlap loop *)

(** The score the loop computes for an item of the vocabulary. *)
Definition item_score (query_words : list string)
  (item : string * vocab_value) : option Float.float :=
  let '(vocab_term, (_, _, weight)) := item in
  overlap_score query_words vocab_term weight.

(** What holds of the loop state after the items [seen]: no score seen is
    above [best_score]; [best_match] is an item seen that has this score,
    and every item before it scores strictly less. *)
Definition overlap_inv (query_words : list string)
  (seen : list (string * vocab_value)) (b : best) : Prop :=
  Float.nonneg (snd b) = true
  /\ (forall item s,
         In item seen -> item_score query_words item = Some s ->
         Float.gtb s (snd b) = false)
  /\ match fst b with
     | Some (typ, key, vocab_term) =>
         exists before weight after,
           seen = before ++ (vocab_term, (typ, key, weight)) :: after
           /\ overlap_score query_words vocab_term weight = Some (snd b)
           /\ forall item s,
               In item before -> item_score query_words item = Some s ->
               Float.gtb (snd b) s = true
     | None => snd b = Float.zero
     end.

(** The weights are finite and above zero. *)
Definition weights_ok (vocab : Dict.dict vocab_value) : Prop :=
  Forall (fun item => Float.positive_finite (snd (snd item)) = true) vocab.

(** A medicine whose name has two letters. *)
Definition tb_env : env :=
  offline [] [] [("TB", mk_entry [] (Some "Medicines against tuberculosis.") None)].

(** ** The handler *)

(** The documented behaviour of [difflib.get_close_matches]: the matches
    are taken from the possibilities. *)
Definition close_matches_sound (E : env) : Prop :=
  forall word possibilities m,
    In m (get_close_matches E word possibilities) -> In m possibilities.

(** The message is missing, is not a string, or holds whitespace only. *)
Definition blank_message (data : request) : bool :=
  match message data with
  | None => true
  | Some (JString s) => forallb is_space (chars s)
  | Some _ => true
  end.

(** The text of a request whose message is a string. *)
Definition message_text (data : request) : string :=
  match message data with
  | Some (JString s) => s
  | _ => ""
  end.

(** The language a request is processed in: the requested one, except
    that English flips to Sesotho when the heuristic says so. *)
Definition resolved_lang (l : lang) (text : string) : lang :=
  match l with
  | En => if is_sesotho text then St else En
  | St => St
  end.

(** A call that fits a request of language [l] on the stripped [text]: the
    heuristic is called for English only, the resolver and the QA fallback
    get the resolved language. *)
Definition call_ok (l : lang) (text : string) (c : call) : Prop :=
  match c with
  | CallIsSesotho _ => l = En
  | CallMatching t => t = text
  | CallResponse _ _ l' => l' = resolved_lang l text
  | CallQA _ l' => l' = resolved_lang l text
  end.

(** The computation returns, its calls satisfy [ok] and its value [P]. *)
Definition returns {A} (ok : call -> Prop) (m : M A) (P : A -> Prop) : Prop :=
  exists log a, m = (log, Ok a) /\ Forall ok log /\ P a.

(** [s] ends with [suffix]. *)
Definition ends_with (suffix s : string) : bool :=
  Text.starts_with (rev (chars suffix)) (rev (chars s)).

(** ** The stages of the cascade *)

(** The test of the substring stage on one item of the vocabulary. *)
Definition substring_hit (clean : string) (item : string * vocab_value) : bool :=
  Nat.ltb 2 (str_len (fst item)) && str_in (fst item) clean.

(** The guard of [advanced_topic_matching]: the text is empty or blank. *)
Definition blank_text (user_text : string) : bool :=
  negb (truthy user_text) || negb (truthy (str_strip user_text)).

(** A fact whose tag holds a slash. *)
Definition slash_tag_env : env :=
  offline
    [("hiv_aids", mk_entry ["HIV/AIDS"] (Some "HIV can lead to AIDS.") None)]
    [] [].



(** ** Iteration order *)

(** The elements of [l] that are not in [seen], each once, in the order of
    their first occurrence. *)
Fixpoint new_terms (seen : list string) (l : list string) : list string :=
  match l with
  | [] => []
  | x :: l' =>
      if mem_word x seen then new_terms seen l'
      else x :: new_terms (x :: seen) l'
  end.

(** The terms the four stages produce, in order. *)
Definition produced_terms (kb g m : Dict.dict entry) : list string :=
  map fst (kb_insertions kb) ++ map fst (glossary_insertions g)
  ++ map fst (medicine_insertions m) ++ medication_terms.

(** * Properties *)

(** ** Characters *)

Ltac each_char c :=
  destruct c as [[] [] [] [] [] [] [] []]; vm_compute; try reflexivity;
  try discriminate; auto.

Lemma is_blank_space (c : ascii) : is_blank c = true <-> c = space.
Proof. unfold is_blank. apply Ascii.eqb_eq. Qed.

Lemma alnum_not_space (c : ascii) : is_alnum c = true -> is_space c = false.
Proof. each_char c. Qed.

Lemma alnum_not_junk (c : ascii) : is_alnum c = true -> is_junk c = false.
Proof. unfold is_junk. intros ->. reflexivity. Qed.

Lemma alnum_lower (c : ascii) : is_alnum c = true -> lower_char c = c.
Proof. each_char c. Qed.

Lemma not_junk_cases (c : ascii) :
  is_junk c = false -> is_alnum c = true \/ is_space c = true.
Proof.
  unfold is_junk. intros H. apply negb_false_iff, orb_true_iff in H. exact H.
Qed.

(** ** The normalizer *)

Lemma sub_junk_clean (s : list ascii) (b : bool) :
  Forall (fun c => is_junk c = false) (Text.sub_runs is_junk b s).
Proof.
  revert b. induction s as [|c s IH]; intros b; simpl; [constructor|].
  destruct (is_junk c) eqn:Hc.
  - destruct b; [apply IH|]. constructor; [reflexivity | apply IH].
  - constructor; [exact Hc | apply IH].
Qed.

Lemma sub_space_single (s : list ascii) (b : bool) :
  Forall (fun c => is_junk c = false) s ->
  single_spaced b (Text.sub_runs is_space b s) = true.
Proof.
  intros H. revert b. induction H as [|c s Hc _ IH]; intros b; simpl; [reflexivity|].
  destruct (is_space c) eqn:Hs.
  - destruct b; [apply IH|]. simpl. apply IH.
  - simpl. destruct (not_junk_cases c Hc) as [Ha|Ha]; [|congruence].
    rewrite Ha. apply IH.
Qed.

Lemma single_spaced_weaken (s : list ascii) :
  single_spaced true s = true -> single_spaced false s = true.
Proof.
  destruct s as [|c s]; simpl; [reflexivity|].
  destruct (is_alnum c); [tauto|].
  rewrite andb_false_r. discriminate.
Qed.

Lemma single_spaced_after_space (s : list ascii) :
  single_spaced true s = true ->
  match s with [] => True | d :: _ => is_alnum d = true end.
Proof.
  destruct s as [|c s]; simpl; [trivial|].
  destruct (is_alnum c); [trivial|].
  rewrite andb_false_r. discriminate.
Qed.

Lemma lstrip_single (s : list ascii) (b : bool) :
  single_spaced b s = true ->
  single_spaced false (Text.lstrip s) = true
  /\ match Text.lstrip s with [] => True | d :: _ => is_alnum d = true end.
Proof.
  revert b. induction s as [|c s IH]; intros b; simpl; [auto|].
  destruct (is_alnum c) eqn:Ha.
  - intros H. rewrite (alnum_not_space c Ha). simpl. rewrite Ha. auto.
  - intros H. apply andb_true_iff in H as [H Hs].
    apply andb_true_iff in H as [Hb _].
    apply is_blank_space in Hb. subst c. change (is_space space) with true.
    cbv iota. exact (IH true Hs).
Qed.

Lemma rstrip_head (s : list ascii) :
  match Text.rstrip s with
  | [] => True
  | d :: _ => match s with [] => False | c :: _ => d = c end
  end.
Proof.
  destruct s as [|c s]; simpl; [trivial|].
  destruct (Text.rstrip s); [destruct (is_space c)|]; trivial.
Qed.

Lemma rstrip_wellspaced (s : list ascii) :
  single_spaced false s = true -> wellspaced (Text.rstrip s) = true.
Proof.
  induction s as [|c s IH]; simpl; [reflexivity|].
  destruct (is_alnum c) eqn:Ha.
  - intros H. specialize (IH H).
    destruct (Text.rstrip s) as [|d r] eqn:Hr.
    + rewrite (alnum_not_space c Ha). simpl. rewrite Ha. reflexivity.
    + change (wellspaced (c :: d :: r)) with
        (if is_alnum c then wellspaced (d :: r)
         else is_blank c && is_alnum d && wellspaced (d :: r)).
      rewrite Ha. exact IH.
  - intros H. apply andb_true_iff in H as [H Hs].
    apply andb_true_iff in H as [Hb _].
    pose proof (single_spaced_after_space s Hs) as Hhd.
    specialize (IH (single_spaced_weaken s Hs)).
    pose proof (rstrip_head s) as Hh.
    destruct (Text.rstrip s) as [|d r] eqn:Hr.
    + apply is_blank_space in Hb. subst c. reflexivity.
    + change (wellspaced (c :: d :: r)) with
        (if is_alnum c then wellspaced (d :: r)
         else is_blank c && is_alnum d && wellspaced (d :: r)).
      rewrite Ha, Hb, IH. destruct s as [|c' s']; [contradiction|].
      subst d. rewrite Hhd. reflexivity.
Qed.

Lemma normalize_chars_canonical (s : list ascii) :
  canonical (normalize_chars s) = true.
Proof.
  unfold normalize_chars, Text.strip.
  set (s1 := Text.sub_runs is_junk false (Text.lower s)).
  pose proof (sub_space_single s1 false (sub_junk_clean _ _)) as H.
  destruct (lstrip_single _ _ H) as [H1 H2].
  pose proof (rstrip_wellspaced _ H1) as H3.
  pose proof (rstrip_head (Text.lstrip (Text.sub_runs is_space false s1))) as H4.
  unfold canonical.
  destruct (Text.rstrip _) as [|d r]; [reflexivity|].
  destruct (Text.lstrip _) as [|c t]; [contradiction|].
  subst d. rewrite H2. exact H3.
Qed.

Lemma wellspaced_chars (s : list ascii) :
  wellspaced s = true -> Forall (fun c => is_alnum c = true \/ c = space) s.
Proof.
  induction s as [|c s IH]; simpl; [constructor|].
  destruct (is_alnum c) eqn:Ha; intros H.
  - constructor; auto.
  - apply andb_true_iff in H as [H Hs]. apply andb_true_iff in H as [Hb _].
    constructor; [right; apply is_blank_space, Hb | auto].
Qed.

Lemma lower_fixes (s : list ascii) :
  Forall (fun c => is_alnum c = true \/ c = space) s -> Text.lower s = s.
Proof.
  unfold Text.lower.
  induction 1 as [|c s Hc _ IH]; simpl; [reflexivity|].
  rewrite IH. f_equal.
  destruct Hc as [Ha| ->]; [apply alnum_lower, Ha | reflexivity].
Qed.

Lemma sub_junk_fixes (s : list ascii) (b : bool) :
  Forall (fun c => is_alnum c = true \/ c = space) s ->
  Text.sub_runs is_junk b s = s.
Proof.
  intros H. revert b. induction H as [|c s Hc _ IH]; intros b; simpl; [reflexivity|].
  assert (is_junk c = false) as ->
      by (destruct Hc as [Ha| ->]; [apply alnum_not_junk, Ha | reflexivity]).
  f_equal. apply IH.
Qed.

Lemma sub_space_fixes (s : list ascii) :
  wellspaced s = true -> Text.sub_runs is_space false s = s.
Proof.
  induction s as [|c s IH]; simpl; [reflexivity|].
  destruct (is_alnum c) eqn:Ha; intros H.
  - rewrite (alnum_not_space c Ha). f_equal. apply IH, H.
  - apply andb_true_iff in H as [H Hs]. apply andb_true_iff in H as [Hb Hd].
    apply is_blank_space in Hb. subst c. change (is_space space) with true.
    cbv iota. f_equal. specialize (IH Hs).
    destruct s as [|d s']; [discriminate|].
    simpl in IH |- *. rewrite (alnum_not_space d Hd) in IH |- *. exact IH.
Qed.

Lemma rstrip_fixes (s : list ascii) :
  wellspaced s = true -> Text.rstrip s = s.
Proof.
  induction s as [|c s IH]; simpl; [reflexivity|].
  destruct (is_alnum c) eqn:Ha; intros H.
  - rewrite (IH H). destruct s; [|reflexivity].
    rewrite (alnum_not_space c Ha). reflexivity.
  - apply andb_true_iff in H as [H Hs]. apply andb_true_iff in H as [_ Hd].
    rewrite (IH Hs). destruct s; [discriminate | reflexivity].
Qed.

Lemma canonical_wellspaced (s : list ascii) :
  canonical s = true -> wellspaced s = true.
Proof.
  destruct s as [|c s]; [reflexivity|]. unfold canonical.
  intros H. apply andb_true_iff in H. tauto.
Qed.

Lemma canonical_fixed (s : list ascii) :
  canonical s = true -> normalize_chars s = s.
Proof.
  intros H. pose proof (canonical_wellspaced s H) as Hw.
  pose proof (wellspaced_chars s Hw) as Hc.
  unfold normalize_chars, Text.strip.
  rewrite (lower_fixes s Hc), (sub_junk_fixes s false Hc), (sub_space_fixes s Hw).
  destruct s as [|c s]; [reflexivity|].
  unfold canonical in H. apply andb_true_iff in H as [Ha _].
  simpl Text.lstrip. rewrite (alnum_not_space c Ha).
  apply rstrip_fixes, Hw.
Qed.

Lemma wellspaced_no_double (l1 l2 : list ascii) :
  wellspaced (l1 ++ space :: space :: l2) = false.
Proof.
  induction l1 as [|c l1 IH]; [reflexivity|].
  change ((c :: l1) ++ space :: space :: l2)
    with (c :: (l1 ++ space :: space :: l2)).
  simpl wellspaced. rewrite IH. destruct (is_alnum c); [reflexivity|].
  apply andb_false_r.
Qed.

Lemma wellspaced_last (l : list ascii) (c : ascii) :
  wellspaced (l ++ [c]) = true -> is_alnum c = true.
Proof.
  induction l as [|d l IH]; simpl.
  - destruct (is_alnum c); [reflexivity|]. rewrite andb_false_r. discriminate.
  - destruct (is_alnum d); [exact IH|].
    intros H. apply andb_true_iff in H as [_ H]. exact (IH H).
Qed.

Lemma chars_text (l : list ascii) : chars (text l) = l.
Proof. apply list_ascii_of_string_of_list_ascii. Qed.

Lemma text_chars (s : string) : text (chars s) = s.
Proof. apply string_of_list_ascii_of_string. Qed.

Lemma normalize_canonical (x : option string) :
  canonical (chars (normalize x)) = true.
Proof. unfold normalize. rewrite chars_text. apply normalize_chars_canonical. Qed.

(** C4. Normalizing twice is normalizing once; the normal form holds only
    characters of [[a-z0-9]] and spaces, never two spaces in a row, and
    neither begins nor ends with whitespace; [None] and the empty string
    normalize to the empty string. *)
Theorem normalize_idempotent_and_canonical (x : option string) :
  normalize (Some (normalize x)) = normalize x
  /\ Forall (fun c => is_alnum c = true \/ c = space) (chars (normalize x))
  /\ (forall l1 l2, chars (normalize x) <> l1 ++ space :: space :: l2)
  /\ (forall c l, chars (normalize x) = c :: l -> is_space c = false)
  /\ (forall l c, chars (normalize x) = l ++ [c] -> is_space c = false)
  /\ normalize None = ""
  /\ normalize (Some "") = "".
Proof.
  pose proof (normalize_canonical x) as Hc.
  pose proof (canonical_wellspaced _ Hc) as Hw.
  repeat split.
  - unfold normalize at 1. rewrite (canonical_fixed _ Hc). apply text_chars.
  - apply wellspaced_chars, Hw.
  - intros l1 l2 E. rewrite E, wellspaced_no_double in Hw. discriminate.
  - intros c l E. rewrite E in Hc. unfold canonical in Hc.
    apply andb_true_iff in Hc as [Ha _]. apply alnum_not_space, Ha.
  - intros l c E. rewrite E in Hw. apply alnum_not_space, (wellspaced_last l c Hw).
Qed.

(** ** The special pattern detector *)

Lemma scan_patterns_find (info : pattern_info) (ps : list string) (clean : string) :
  scan_patterns info ps clean
  = match pattern_target info with
    | Some (typ, key) =>
        match find (fun p => str_in p clean) ps with
        | Some p => Some (typ, key, p, priority info)
        | None => None
        end
    | None => None
    end.
Proof.
  unfold pattern_target.
  induction ps as [|p ps IH]; simpl.
  - destruct (medicine_key info); [|destruct (glossary_key info)]; reflexivity.
  - destruct (str_in p clean); [|exact IH].
    destruct (medicine_key info); [reflexivity|].
    destruct (glossary_key info); [reflexivity|]. exact IH.
Qed.

Lemma find_map_fst {A B} (f : A -> bool) (b : B) (l : list A) :
  find (fun d : A * B => f (fst d)) (map (fun a => (a, b)) l)
  = match find f l with Some a => Some (a, b) | None => None end.
Proof.
  induction l as [|a l IH]; simpl; [reflexivity|].
  destruct (f a); [reflexivity | exact IH].
Qed.

Lemma find_app {A} (f : A -> bool) (l1 l2 : list A) :
  find f (l1 ++ l2)
  = match find f l1 with Some a => Some a | None => find f l2 end.
Proof.
  induction l1 as [|a l1 IH]; simpl; [reflexivity|].
  destruct (f a); [reflexivity | exact IH].
Qed.

(** The two loops return the first trigger of the table, in declaration
    order, that the text contains. *)
Lemma scan_table_find (table : Dict.dict pattern_info) (clean : string) :
  scan_table table clean
  = match find (fun d => str_in (fst d) clean) (triggers_of table) with
    | Some (p, (typ, key, prio)) => Some (typ, key, p, prio)
    | None => None
    end.
Proof.
  induction table as [|[name info] table IH]; simpl; [reflexivity|].
  rewrite scan_patterns_find, find_app.
  destruct (pattern_target info) as [[typ key]|]; [|exact IH].
  rewrite (find_map_fst (fun p => str_in p clean)).
  destruct (find (fun p => str_in p clean) (patterns info)); [reflexivity|].
  exact IH.
Qed.

Lemma detect_first_trigger (user_text : string) :
  detect_special_medication_patterns user_text
  = match first_trigger (normalize (Some user_text)) with
    | Some (p, (typ, key, prio)) => Some (typ, key, p, prio)
    | None => None
    end.
Proof. apply scan_table_find. Qed.

(** ** Blank texts *)

Lemma space_lower (c : ascii) : is_space c = true -> lower_char c = c.
Proof. each_char c. Qed.

Lemma space_not_junk (c : ascii) : is_space c = true -> is_junk c = false.
Proof. unfold is_junk. intros ->. rewrite orb_true_r. reflexivity. Qed.

Lemma rstrip_keeps_word (c : ascii) (s : list ascii) :
  is_space c = false -> Text.rstrip (c :: s) <> [].
Proof. simpl. intros ->. destruct (Text.rstrip s); discriminate. Qed.

Lemma strip_empty_blank (s : list ascii) :
  Text.strip s = [] -> forallb is_space s = true.
Proof.
  unfold Text.strip. induction s as [|c s IH]; [reflexivity|].
  simpl Text.lstrip. simpl forallb. destruct (is_space c) eqn:Hc.
  - exact IH.
  - intros H. exfalso. exact (rstrip_keeps_word c s Hc H).
Qed.

Lemma blank_lower (s : list ascii) :
  forallb is_space s = true -> Text.lower s = s.
Proof.
  unfold Text.lower. induction s as [|c s IH]; simpl; [reflexivity|].
  intros H. apply andb_true_iff in H as [Hc Hs].
  rewrite (space_lower c Hc), (IH Hs). reflexivity.
Qed.

Lemma blank_sub_junk (s : list ascii) (b : bool) :
  forallb is_space s = true -> Text.sub_runs is_junk b s = s.
Proof.
  revert b. induction s as [|c s IH]; intros b; simpl; [reflexivity|].
  intros H. apply andb_true_iff in H as [Hc Hs].
  rewrite (space_not_junk c Hc), (IH false Hs). reflexivity.
Qed.

Lemma blank_sub_space (s : list ascii) :
  forallb is_space s = true -> Text.sub_runs is_space true s = [].
Proof.
  induction s as [|c s IH]; simpl; [reflexivity|].
  intros H. apply andb_true_iff in H as [Hc Hs]. rewrite Hc. exact (IH Hs).
Qed.

Lemma blank_normalize_chars (s : list ascii) :
  forallb is_space s = true -> normalize_chars s = [].
Proof.
  intros H. unfold normalize_chars.
  rewrite (blank_lower s H), (blank_sub_junk s false H).
  destruct s as [|c s]; [reflexivity|].
  simpl in H. apply andb_true_iff in H as [Hc Hs].
  simpl. rewrite Hc, (blank_sub_space s Hs). reflexivity.
Qed.

Lemma text_empty (l : list ascii) : text l = "" -> l = [].
Proof. destruct l; [reflexivity | discriminate]. Qed.

Lemma truthy_false (s : string) : truthy s = false -> s = "".
Proof.
  unfold truthy. intros H. apply negb_false_iff in H.
  apply String.eqb_eq, H.
Qed.

(** A text that [strip] empties normalizes to the empty string. *)
Lemma blank_normalize (s : string) :
  truthy (str_strip s) = false -> normalize (Some s) = "".
Proof.
  intros H. apply truthy_false, text_empty, strip_empty_blank in H.
  unfold normalize. rewrite (blank_normalize_chars _ H). reflexivity.
Qed.

Lemma str_in_empty (p : string) : str_in p "" = true -> p = "".
Proof.
  unfold str_in. simpl. rewrite orb_false_r.
  intros H. rewrite <- (text_chars p).
  destruct (chars p); [reflexivity | discriminate].
Qed.

(** The guard of [advanced_topic_matching] lets through every text whose
    normal form contains a non-empty phrase. *)
Lemma guard_passes (user_text p : string) :
  p <> "" -> str_in p (normalize (Some user_text)) = true ->
  negb (truthy user_text) || negb (truthy (str_strip user_text)) = false.
Proof.
  intros Hp Hin.
  assert (normalize (Some user_text) <> "") as Hn
      by (intros E; rewrite E in Hin; exact (Hp (str_in_empty p Hin))).
  apply orb_false_iff. split; apply negb_false_iff.
  - destruct (truthy user_text) eqn:H; [reflexivity|].
    apply truthy_false in H. subst user_text. exfalso. apply Hn. reflexivity.
  - destruct (truthy (str_strip user_text)) eqn:H; [reflexivity|].
    exfalso. exact (Hn (blank_normalize _ H)).
Qed.

Lemma declared_triggers_nonempty (d : string * (source_type * string * nat)) :
  In d declared_triggers -> fst d <> "".
Proof.
  intros H.
  assert (forallb (fun d => truthy (fst d)) declared_triggers = true) as Hall
      by reflexivity.
  rewrite forallb_forall in Hall. specialize (Hall d H).
  intros E. rewrite E in Hall. discriminate.
Qed.

(** When the detector hits, the cascade returns the hit. *)
Lemma matching_special (E : env) (user_text : string)
  (typ : source_type) (key p : string) (prio : nat) :
  detect_special_medication_patterns user_text = Some (typ, key, p, prio) ->
  advanced_topic_matching E user_text
  = Ok (found typ key p
          (if str_in "examples" p then Examples else Definition_)).
Proof.
  intros Hd. pose proof Hd as Hd'.
  rewrite detect_first_trigger in Hd'.
  destruct (first_trigger (normalize (Some user_text)))
    as [[p' [[typ' key'] prio']]|] eqn:Hf; [|discriminate].
  injection Hd' as -> -> -> ->.
  apply find_some in Hf as [Hin Hc]. simpl in Hc.
  pose proof (declared_triggers_nonempty _ Hin) as Hne. simpl in Hne.
  unfold advanced_topic_matching.
  rewrite (guard_passes user_text p Hne Hc), Hd. reflexivity.
Qed.

Lemma first_trigger_exists (clean phrase : string) :
  In phrase (map fst declared_triggers) -> str_in phrase clean = true ->
  exists d, first_trigger clean = Some d.
Proof.
  intros Hin Hc. unfold first_trigger.
  destruct (find _ declared_triggers) as [d|] eqn:Hf; [exists d; reflexivity|].
  apply in_map_iff in Hin as [d [<- Hd]].
  pose proof (find_none _ _ Hf d Hd) as Hn. simpl in Hn. congruence.
Qed.

(** C6. When the normalized text contains a trigger phrase of the table,
    the detector returns the first declared trigger the text contains
    (patterns in declaration order, phrases of a pattern in declaration
    order), and the cascade returns that type, key and phrase whatever the
    collections, hence the vocabulary, hold. *)
Theorem special_pattern_wins (E : env) (user_text phrase : string) :
  In phrase (map fst declared_triggers) ->
  str_in phrase (normalize (Some user_text)) = true ->
  map fst declared_triggers
  = ["examples of arv"; "arv examples"; "list of arv"; "arv drugs";
     "hiv drugs list"; "arv medications"; "types of arv"; "arv list";
     "hiv medications"; "give me examples of arv";
     "what is arv"; "arv keng"; "arv meaning"; "define arv"; "arv ke eng";
     "art keng"; "art ke eng";
     "what is hiv"; "hiv keng"; "hiv meaning"; "define hiv"; "hiv ke eng"]
  /\ exists p typ key prio q,
      first_trigger (normalize (Some user_text)) = Some (p, (typ, key, prio))
      /\ detect_special_medication_patterns user_text = Some (typ, key, p, prio)
      /\ advanced_topic_matching E user_text
         = Ok (Some typ, Some key, Some p, q).
Proof.
  intros Hin Hc. split; [reflexivity|].
  destruct (first_trigger_exists _ _ Hin Hc) as [[p [[typ key] prio]] Hf].
  assert (detect_special_medication_patterns user_text = Some (typ, key, p, prio))
    as Hd by (rewrite detect_first_trigger, Hf; reflexivity).
  exists p, typ, key, prio. eexists. split; [exact Hf|]. split; [exact Hd|].
  rewrite (matching_special E _ _ _ _ _ Hd). reflexivity.
Qed.

Lemma declared_triggers_kinds (d : string * (source_type * string * nat)) :
  In d declared_triggers ->
  match fst (fst (snd d)) with
  | SrcMedicine => True
  | SrcGlossary => str_in "examples" (fst d) = false
  | SrcKb => False
  end.
Proof.
  intros H.
  assert (forallb
            (fun d : string * (source_type * string * nat) =>
               match fst (fst (snd d)) with
               | SrcMedicine => true
               | SrcGlossary => negb (str_in "examples" (fst d))
               | SrcKb => false
               end) declared_triggers = true) as Hall by reflexivity.
  rewrite forallb_forall in Hall. specialize (Hall d H).
  destruct (fst (fst (snd d))); [discriminate | | trivial].
  apply negb_true_iff, Hall.
Qed.

(** C7. On a special pattern hit the cascade returns the hit with this
    question type: for a medicine key, examples when the matched phrase
    contains "examples" and definition otherwise; for a glossary key,
    definition; and no hit has another type. *)
Theorem special_hit_question_type (E : env) (user_text : string)
  (typ : source_type) (key matched : string) (prio : nat) :
  detect_special_medication_patterns user_text = Some (typ, key, matched, prio) ->
  advanced_topic_matching E user_text
  = Ok (found typ key matched (special_question_type typ matched))
  /\ match typ with
     | SrcMedicine =>
         (special_question_type typ matched = Examples
          <-> str_in "examples" matched = true)
         /\ (special_question_type typ matched = Definition_
             <-> str_in "examples" matched = false)
     | SrcGlossary => special_question_type typ matched = Definition_
     | SrcKb => False
     end.
Proof.
  intros Hd. pose proof Hd as Hd'.
  rewrite detect_first_trigger in Hd'.
  destruct (first_trigger (normalize (Some user_text)))
    as [[p' [[typ' key'] prio']]|] eqn:Hf; [|discriminate].
  injection Hd' as -> -> -> ->.
  apply find_some in Hf as [Hin _].
  pose proof (declared_triggers_kinds _ Hin) as Hk. simpl in Hk.
  rewrite (matching_special E _ _ _ _ _ Hd).
  destruct typ; simpl; [contradiction | |].
  - rewrite Hk. split; reflexivity.
  - split; [reflexivity|].
    destruct (str_in "examples" matched); split; split; congruence.
Qed.

Lemma special_pattern_wins_witness :
  exact_match (VOCAB sample_env) (normalize (Some "What is ARV?"))
  = Some (found SrcKb "hiv_treatment" "what is arv" General)
  /\ exists q,
      advanced_topic_matching sample_env "What is ARV?"
      = Ok (Some SrcGlossary, Some "art", Some "what is arv", q).
Proof.
  split; [reflexivity|].
  destruct (special_pattern_wins sample_env "What is ARV?" "what is arv")
    as [_ [p [typ [key [prio [q [Hf [_ Ha]]]]]]]].
  - simpl. repeat (first [left; reflexivity | right]).
  - reflexivity.
  - exists q. vm_compute in Hf. injection Hf as <- <- <- <-. exact Ha.
Defined.

Lemma special_hit_question_type_witness :
  advanced_topic_matching sample_env "Give me examples of ARV!"
  = Ok (found SrcMedicine "arv_examples" "examples of arv" Examples)
  /\ advanced_topic_matching sample_env "list of ARV"
     = Ok (found SrcMedicine "arv_examples" "list of arv" Definition_).
Proof.
  split.
  - apply (special_hit_question_type sample_env "Give me examples of ARV!"
             SrcMedicine "arv_examples" "examples of arv" 10).
    reflexivity.
  - apply (special_hit_question_type sample_env "list of ARV"
             SrcMedicine "arv_examples" "list of arv" 10).
    reflexivity.
Defined.

(** ** The response resolver *)

Lemma lookup_in_usable (d : Dict.dict entry) (key : string) (l : lang)
  (otherwise : option string) :
  lookup_in d key l otherwise
  = match usable_text d key l with Some c => Some c | None => otherwise end.
Proof.
  unfold lookup_in, usable_text, localized, py_or, truthy_opt.
  destruct (Dict.get key d) as [e|]; [|reflexivity].
  generalize (entry_get e En) as b. generalize (entry_get e l) as a.
  intros [c|] [c'|];
    try destruct (truthy c) eqn:Hc; try destruct (truthy c') eqn:Hc';
    rewrite ?Hc, ?Hc'; reflexivity.
Qed.

Lemma usable_text_truthy (d : Dict.dict entry) (key : string) (l : lang)
  (c : string) : usable_text d key l = Some c -> c <> "".
Proof.
  unfold usable_text. intros H E. subst c.
  destruct (Dict.get key d) as [e|]; [|discriminate].
  revert H. generalize (entry_get e En) as b. generalize (entry_get e l) as a.
  intros [c|] [c'|];
    try destruct (truthy c) eqn:Hc; try destruct (truthy c') eqn:Hc';
    intros H; try discriminate; injection H as ->; discriminate.
Qed.

(** C3, as the code has it.  The resolver tries Facts, then Medicines, then
    Glossary, and the first collection that offers a non-empty text for
    the key (in the requested language, else in English) wins.  So for a
    key of both Facts and Glossary the Facts text is returned whenever the
    fact has a non-empty text in the requested language or in English,
    whatever the glossary says; a collection that holds the key without
    such a text is passed over. *)
Theorem resolver_precedence (E : env) (key : string) (q : question_type)
  (l : lang) :
  generate_targeted_response E key q l
  = match usable_text (KB E) key l with
    | Some c => Some c
    | None =>
        match usable_text (MEDICINES E) key l with
        | Some c => Some c
        | None => usable_text (GLOSSARY E) key l
        end
    end
  /\ (forall c, usable_text (KB E) key l = Some c ->
                generate_targeted_response E key q l = Some c)
  /\ generate_targeted_response E key q l <> Some "".
Proof.
  assert (generate_targeted_response E key q l
          = match usable_text (KB E) key l with
            | Some c => Some c
            | None =>
                match usable_text (MEDICINES E) key l with
                | Some c => Some c
                | None => usable_text (GLOSSARY E) key l
                end
            end) as Heq.
  { unfold generate_targeted_response. rewrite !lookup_in_usable.
    destruct (usable_text (GLOSSARY E) key l); reflexivity. }
  split; [exact Heq|]. split.
  - intros c Hc. rewrite Heq, Hc. reflexivity.
  - rewrite Heq. intros H.
    destruct (usable_text (KB E) key l) eqn:H1.
    { injection H as ->. exact (usable_text_truthy _ _ _ _ H1 eq_refl). }
    destruct (usable_text (MEDICINES E) key l) eqn:H2.
    { injection H as ->. exact (usable_text_truthy _ _ _ _ H2 eq_refl). }
    exact (usable_text_truthy _ _ _ _ H eq_refl).
Qed.

Lemma resolver_precedence_witness :
  usable_text (KB sesotho_only_fact_env) "art" St = Some "ART ke kalafo ea HIV."
  /\ generate_targeted_response sesotho_only_fact_env "art" Definition_ St
     = Some "ART ke kalafo ea HIV.".
Proof.
  split; [reflexivity|].
  apply (resolver_precedence sesotho_only_fact_env "art" Definition_ St).
  reflexivity.
Defined.

(** C3, as stated, fails: the key "art" is in Facts and in Glossary with
    different texts, and for English the resolver returns the Glossary
    text, because the fact has no English text. *)
Lemma resolver_returns_glossary_for_fact_key :
  Dict.get "art" (KB sesotho_only_fact_env)
  = Some (mk_entry ["art"] None (Some "ART ke kalafo ea HIV."))
  /\ Dict.get "art" (GLOSSARY sesotho_only_fact_env)
     = Some (mk_entry [] (Some "ART means antiretroviral therapy.") None)
  /\ generate_targeted_response sesotho_only_fact_env "art" Definition_ En
     = Some "ART means antiretroviral therapy.".
Proof. repeat split. Qed.

(** ** The vocabulary index *)

Lemma get_set {V} (t k : string) (x : V) (d : Dict.dict V) :
  Dict.get t (Dict.set k x d)
  = if String.eqb k t then Some x else Dict.get t d.
Proof.
  induction d as [|[k' x'] d IH]; simpl.
  - destruct (String.eqb k t); reflexivity.
  - destruct (String.eqb k' k) eqn:Hk; simpl.
    + apply String.eqb_eq in Hk. subst k'.
      destruct (String.eqb k t); reflexivity.
    + destruct (String.eqb k' t) eqn:Ht; [|exact IH].
      apply String.eqb_eq in Ht. subst k'.
      rewrite String.eqb_sym, Hk. reflexivity.
Qed.

Lemma get_app {V} (t : string) (d1 d2 : Dict.dict V) :
  Dict.get t (d1 ++ d2)
  = match Dict.get t d1 with Some x => Some x | None => Dict.get t d2 end.
Proof.
  induction d1 as [|[k x] d1 IH]; simpl; [reflexivity|].
  destruct (String.eqb k t); [reflexivity | exact IH].
Qed.

(** Assigning a list of pairs in order: the last pair of a term wins. *)
Lemma get_assignments {V} (t : string) (ins : list (string * V)) (d : Dict.dict V) :
  Dict.get t (fold_left (fun d kx => Dict.set (fst kx) (snd kx) d) ins d)
  = match Dict.get t (rev ins) with Some x => Some x | None => Dict.get t d end.
Proof.
  revert d. induction ins as [|[k x] ins IH]; intros d; simpl; [reflexivity|].
  rewrite IH, get_app, get_set. simpl.
  destruct (Dict.get t (rev ins)); [reflexivity|].
  destruct (String.eqb k t); reflexivity.
Qed.

Lemma fold_left_map {A B C} (f : A -> C -> A) (g : B -> C) (l : list B) (a : A) :
  fold_left (fun a b => f a (g b)) l a = fold_left f (map g l) a.
Proof.
  revert a. induction l as [|b l IH]; intros a; simpl; [reflexivity | apply IH].
Qed.

Lemma add_kb_assignments (kb : Dict.dict entry) (v : Dict.dict vocab_value) :
  add_kb kb v
  = fold_left (fun d kx => Dict.set (fst kx) (snd kx) d) (kb_insertions kb) v.
Proof.
  unfold add_kb, kb_insertions.
  revert v. induction kb as [|ki kb IH]; intros v; simpl; [reflexivity|].
  rewrite fold_left_app, IH. f_equal.
  apply (fold_left_map (fun d kx => Dict.set (fst kx) (snd kx) d)
           (fun tag => (str_lower tag, (SrcKb, fst ki, weight_kb)))).
Qed.

Lemma add_glossary_assignments (g : Dict.dict entry) (v : Dict.dict vocab_value) :
  add_glossary g v
  = fold_left (fun d kx => Dict.set (fst kx) (snd kx) d) (glossary_insertions g) v.
Proof.
  apply (fold_left_map (fun d kx => Dict.set (fst kx) (snd kx) d)
           (fun term => (str_lower term, (SrcGlossary, term, weight_glossary)))).
Qed.

Lemma add_medicines_assignments (m : Dict.dict entry) (v : Dict.dict vocab_value) :
  add_medicines m v
  = fold_left (fun d kx => Dict.set (fst kx) (snd kx) d) (medicine_insertions m) v.
Proof.
  apply (fold_left_map (fun d kx => Dict.set (fst kx) (snd kx) d)
           (fun med => (str_lower med, (SrcMedicine, med, weight_medicine)))).
Qed.

(** The synonym stage fills in the terms that are absent and leaves the
    others alone. *)
Lemma get_add_medication_terms (t : string) (terms : list string)
  (v : Dict.dict vocab_value) :
  Dict.get t (add_medication_terms terms v)
  = match Dict.get t v with
    | Some x => Some x
    | None => if mem_word t terms then Some synonym_value else None
    end.
Proof.
  unfold add_medication_terms, vocab_value in *.
  revert v. induction terms as [|k terms IH]; intros v; simpl.
  - destruct (Dict.get t v); reflexivity.
  - rewrite IH. unfold Dict.mem.
    destruct (Dict.get k v) as [y|] eqn:Hk; simpl.
    + destruct (Dict.get t v) eqn:Ht; [reflexivity|].
      destruct (String.eqb t k) eqn:Htk; [|reflexivity].
      apply String.eqb_eq in Htk. congruence.
    + rewrite get_set. rewrite (String.eqb_sym t k).
      destruct (String.eqb k t) eqn:Htk; simpl.
      * apply String.eqb_eq in Htk. subst k. rewrite Hk. reflexivity.
      * reflexivity.
Qed.

(** C1, as the code has it.  The index is a function of the three
    collections.  Among the Facts, Glossary and Medicines stages the last
    insertion of a lower-cased term wins; the synonym stage never
    overwrites: a synonym gets its own value only when no earlier stage
    produced it. *)
Theorem vocabulary_last_writer (kb g m : Dict.dict entry) (term : string) :
  Dict.get term (build_vocab kb g m)
  = match last_writer
            (kb_insertions kb ++ glossary_insertions g ++ medicine_insertions m)
            term
    with
    | Some v => Some v
    | None => if mem_word term medication_terms then Some synonym_value else None
    end.
Proof.
  unfold build_vocab, last_writer.
  rewrite get_add_medication_terms.
  rewrite add_medicines_assignments, add_glossary_assignments, add_kb_assignments.
  rewrite !get_assignments, !rev_app_distr, !get_app. simpl.
  destruct (Dict.get term (rev (medicine_insertions m))); [reflexivity|].
  destruct (Dict.get term (rev (glossary_insertions g))); [reflexivity|].
  destruct (Dict.get term (rev (kb_insertions kb))); reflexivity.
Qed.

(** C1, as stated, fails: with a glossary entry "ARV" the term "arv" is
    produced by the Glossary stage and then by the synonym list, and the
    index keeps the glossary value, not the value of the later stage. *)
Lemma synonym_does_not_overwrite :
  last_writer
    (kb_insertions (KB arv_glossary_env)
     ++ glossary_insertions (GLOSSARY arv_glossary_env)
     ++ medicine_insertions (MEDICINES arv_glossary_env)
     ++ synonym_insertions) "arv"
  = Some synonym_value
  /\ Dict.get "arv" (VOCAB arv_glossary_env)
     = Some (SrcGlossary, "ARV", weight_glossary)
  /\ Dict.get "arv" (VOCAB arv_glossary_env) <> Some synonym_value.
Proof. repeat split. discriminate. Qed.

(** ** The domain-keyword tests *)

(** C2.  The two tests accept the same texts, those that contain a domain
    synonym, but they do not route alike: step 4 of the cascade sends a
    text with "name" to the examples key, the final fallback of the
    handler, whose list of enumerating words lacks "name", sends it to the
    definition key.  On the request "arv name" below the handler answers
    with the glossary definition of "art". *)
Theorem last_resort_omits_name :
  (forall clean,
      is_some (medication_match clean) = any_in domain_synonyms clean
      /\ is_some (last_resort_key clean) = any_in domain_synonyms clean)
  /\ (forall clean,
         any_in ["name"] clean = true
         \/ option_map fst (last_resort_key clean)
            = routed_key (medication_match clean))
  /\ routed_key (medication_match (normalize (Some "arv name")))
     = Some "arv_examples"
  /\ option_map fst (last_resort_key (normalize (Some "arv name")))
     = Some "art"
  /\ chat name_tag_env (mk_request (Some (JString "arv name")) None)
     = ([CallIsSesotho "arv name"; CallMatching "arv name";
         CallResponse "naming" General En; CallResponse "art" Definition_ En],
        Ok ("ART means antiretroviral therapy." ++ disclaimer En)%string).
Proof.
  split; [|split; [|repeat split]].
  - intros clean. unfold medication_match, last_resort_key.
    change (any_in ["arv"; "art"; "hiv drug"; "antiretroviral"] clean)
      with (any_in domain_synonyms clean).
    destruct (any_in domain_synonyms clean); [|split; reflexivity].
    destruct (any_in ["example"; "list"; "type"; "name"] clean);
      destruct (any_in ["example"; "list"; "type"] clean); split; reflexivity.
  - intros clean. destruct (any_in ["name"] clean) eqn:Hn; [left; reflexivity|].
    right. unfold medication_match, last_resort_key.
    change (any_in ["arv"; "art"; "hiv drug"; "antiretroviral"] clean)
      with (any_in domain_synonyms clean).
    destruct (any_in domain_synonyms clean); [|reflexivity].
    assert (any_in ["example"; "list"; "type"; "name"] clean
            = any_in ["example"; "list"; "type"] clean) as ->.
    { unfold any_in in *. simpl in *. rewrite orb_false_r in Hn.
      rewrite Hn, !orb_false_r. reflexivity. }
    destruct (any_in ["example"; "list"; "type"] clean); reflexivity.
Qed.

(** ** Floats: rounding keeps the sign, comparison is a strict order *)

Lemma shr_1_nonneg (mrs : shr_record) :
  (0 <= shr_m mrs)%Z -> (0 <= shr_m (shr_1 mrs))%Z.
Proof.
  destruct mrs as [m r s]. simpl.
  destruct m as [|p|p]; [| destruct p | destruct p]; simpl; lia.
Qed.

Lemma iter_shr_nonneg (p : positive) (mrs : shr_record) :
  (0 <= shr_m mrs)%Z -> (0 <= shr_m (iter_pos shr_1 p mrs))%Z.
Proof.
  revert mrs. induction p as [p IH|p IH|]; intros mrs H; simpl.
  - apply IH, IH, shr_1_nonneg, H.
  - apply IH, IH, H.
  - apply shr_1_nonneg, H.
Qed.

Lemma shr_record_of_loc_m (m : Z) (l : location) :
  shr_m (shr_record_of_loc m l) = m.
Proof. destruct l as [|[]]; reflexivity. Qed.

Lemma shr_fexp_nonneg (m e : Z) (l : location) :
  (0 <= m)%Z -> (0 <= shr_m (fst (shr_fexp Float.prec Float.emax m e l)))%Z.
Proof.
  intros H. unfold shr_fexp, shr.
  destruct (_ - e)%Z; simpl; rewrite ?shr_record_of_loc_m; try exact H.
  apply iter_shr_nonneg. rewrite shr_record_of_loc_m. exact H.
Qed.

Lemma round_nearest_even_nonneg (m : Z) (l : location) :
  (0 <= m)%Z -> (0 <= round_nearest_even m l)%Z.
Proof.
  intros H. destruct l as [|[]]; simpl; try lia.
  destruct (Z.even m); lia.
Qed.

Lemma round_aux_nonneg (mx ex : Z) (lx : location) :
  (0 <= mx)%Z ->
  Float.nonneg (binary_round_aux Float.prec Float.emax false mx ex lx) = true.
Proof.
  intros H. unfold binary_round_aux.
  pose proof (shr_fexp_nonneg mx ex lx H) as H1.
  destruct (shr_fexp Float.prec Float.emax mx ex lx) as [mrs' e'].
  simpl in H1.
  pose proof (shr_fexp_nonneg _ e' loc_Exact
                (round_nearest_even_nonneg _ (loc_of_shr_record mrs') H1)) as H2.
  destruct (shr_fexp Float.prec Float.emax _ e' loc_Exact) as [mrs'' e''].
  simpl in H2.
  destruct (shr_m mrs'') as [|m|m]; [reflexivity | | lia].
  destruct (Z.leb e'' (Float.emax - Float.prec)); reflexivity.
Qed.

Lemma of_int_positive (n : nat) :
  1 <= n -> exists p, Float.of_int n = S754_finite false p 0.
Proof.
  intros H. unfold Float.of_int.
  destruct (Z.of_nat n) as [|p|p] eqn:E; [lia | exists p; reflexivity | lia].
Qed.

Lemma true_div_nonneg (a b : nat) :
  1 <= a -> 1 <= b -> Float.nonneg (Float.true_div a b) = true.
Proof.
  intros Ha Hb. unfold Float.true_div.
  destruct (of_int_positive a Ha) as [p ->].
  destruct (of_int_positive b Hb) as [q ->].
  unfold SFdiv, SFdiv_core_binary.
  set (m' := match _ with Zpos _ => _ | Z0 => _ | Zneg _ => _ end).
  assert (0 <= m')%Z as Hm.
  { subst m'. destruct (_ - _)%Z; try lia. apply Z.shiftl_nonneg. lia. }
  pose proof (Z_div_mod m' (Zpos q) eq_refl) as Hd.
  destruct (Z.div_eucl m' (Zpos q)) as [k r].
  apply round_aux_nonneg. destruct Hd as [Hd Hr]. nia.
Qed.

Lemma mul_nonneg (x w : Float.float) :
  Float.nonneg x = true -> Float.positive_finite w = true ->
  Float.nonneg (Float.mul x w) = true.
Proof.
  destruct w as [| | |[] mw ew]; try discriminate. intros Hx _.
  destruct x as [[]|[]| |[] mx ex]; try discriminate; try reflexivity.
  apply round_aux_nonneg. lia.
Qed.

Lemma ltb_rank (x y : Float.float) :
  Float.nonneg x = true -> Float.nonneg y = true ->
  (SFltb x y = true <-> Float.rank_lt (Float.rank x) (Float.rank y)).
Proof.
  destruct x as [[]|[]| |[] mx ex]; try discriminate;
    destruct y as [[]|[]| |[] my ey]; try discriminate; intros _ _;
    unfold SFltb, SFcompare, Float.rank_lt, Float.rank;
    try (split; [discriminate | lia]); try (split; [lia | reflexivity]).
  change (Pos.compare_cont Eq mx my) with (Pos.compare mx my).
  destruct (Z.compare_spec ex ey); destruct (Pos.compare_spec mx my);
    split; intros; try discriminate; try reflexivity; lia.
Qed.

Lemma ltb_irrefl (x : Float.float) :
  Float.nonneg x = true -> SFltb x x = false.
Proof.
  intros H. destruct (SFltb x x) eqn:E; [|reflexivity].
  apply (ltb_rank x x H H) in E. unfold Float.rank_lt in E.
  destruct (Float.rank x) as [[a b] c]. lia.
Qed.

Lemma ltb_trans (x y z : Float.float) :
  Float.nonneg x = true -> Float.nonneg y = true -> Float.nonneg z = true ->
  SFltb x y = true -> SFltb y z = true -> SFltb x z = true.
Proof.
  intros Hx Hy Hz H1 H2.
  apply (ltb_rank x y Hx Hy) in H1. apply (ltb_rank y z Hy Hz) in H2.
  apply (ltb_rank x z Hx Hz). unfold Float.rank_lt in *.
  destruct (Float.rank x) as [[a1 a2] a3], (Float.rank y) as [[b1 b2] b3],
    (Float.rank z) as [[c1 c2] c3]. lia.
Qed.

(** [x <= y < z] gives [x < z]. *)
Lemma le_ltb_trans (x y z : Float.float) :
  Float.nonneg x = true -> Float.nonneg y = true -> Float.nonneg z = true ->
  SFltb y x = false -> SFltb y z = true -> SFltb x z = true.
Proof.
  intros Hx Hy Hz H1 H2.
  apply (ltb_rank y z Hy Hz) in H2.
  apply (ltb_rank x z Hx Hz).
  assert (~ Float.rank_lt (Float.rank y) (Float.rank x)) as H1'
      by (intros H; apply (ltb_rank y x Hy Hx) in H; congruence).
  unfold Float.rank_lt in *.
  destruct (Float.rank x) as [[a1 a2] a3], (Float.rank y) as [[b1 b2] b3],
    (Float.rank z) as [[c1 c2] c3]. lia.
Qed.

(** ** The weights of the vocabulary *)

Lemma set_weights_ok (k : string) (v : vocab_value) (d : Dict.dict vocab_value) :
  weights_ok d -> Float.positive_finite (snd v) = true ->
  weights_ok (Dict.set k v d).
Proof.
  unfold weights_ok. intros Hd Hv.
  induction Hd as [|[k' v'] d Hx Hd IH]; simpl.
  - constructor; [exact Hv | constructor].
  - destruct (String.eqb k' k); constructor; auto.
Qed.

Lemma assignments_weights_ok (ins : list (string * vocab_value))
  (d : Dict.dict vocab_value) :
  weights_ok d -> weights_ok ins ->
  weights_ok (fold_left (fun d kx => Dict.set (fst kx) (snd kx) d) ins d).
Proof.
  intros Hd Hins. revert d Hd.
  induction Hins as [|[k v] ins Hv _ IH]; intros d Hd; simpl; [exact Hd|].
  apply IH, set_weights_ok; assumption.
Qed.

Lemma build_vocab_weights_ok (kb g m : Dict.dict entry) :
  weights_ok (build_vocab kb g m).
Proof.
  unfold build_vocab.
  assert (weights_ok (add_medicines m (add_glossary g (add_kb kb [])))) as H.
  { rewrite add_medicines_assignments, add_glossary_assignments,
      add_kb_assignments.
    repeat apply assignments_weights_ok; try constructor.
    - unfold weights_ok, kb_insertions. apply Forall_flat_map, Forall_forall.
      intros ki _. apply Forall_map, Forall_forall. intros tag _. reflexivity.
    - unfold weights_ok, glossary_insertions.
      apply Forall_map, Forall_forall. intros t _. reflexivity.
    - unfold weights_ok, medicine_insertions.
      apply Forall_map, Forall_forall. intros t _. reflexivity. }
  revert H. generalize (add_medicines m (add_glossary g (add_kb kb []))).
  unfold add_medication_terms.
  induction medication_terms as [|t terms IH]; intros v Hv; simpl; [exact Hv|].
  apply IH.
  match goal with |- weights_ok (if ?c then _ else _) => destruct c end;
    [|exact Hv].
  apply set_weights_ok; [exact Hv | reflexivity].
Qed.

(** ** The word-overlap loop *)

Lemma overlap_score_nonneg (qw : list string) (term : string)
  (w s : Float.float) :
  Float.positive_finite w = true -> overlap_score qw term w = Some s ->
  Float.nonneg s = true.
Proof.
  unfold overlap_score. intros Hw H.
  destruct (common qw (word_set (str_split term))) as [|c cs] eqn:Hc;
    [discriminate|].
  injection H as <-. apply mul_nonneg; [|exact Hw].
  apply true_div_nonneg; simpl; lia.
Qed.

Lemma item_score_nonneg (qw : list string) (l : list (string * vocab_value))
  (item : string * vocab_value) (s : Float.float) :
  weights_ok l -> In item l -> item_score qw item = Some s ->
  Float.nonneg s = true.
Proof.
  intros Hl Hin Hs. unfold weights_ok in Hl. rewrite Forall_forall in Hl.
  specialize (Hl item Hin). destruct item as [term [[typ key] w]].
  exact (overlap_score_nonneg qw term w s Hl Hs).
Qed.

Lemma overlap_inv_step (qw : list string) (seen : list (string * vocab_value))
  (b : best) (item : string * vocab_value) :
  weights_ok seen ->
  Float.positive_finite (snd (snd item)) = true ->
  overlap_inv qw seen b ->
  overlap_inv qw (seen ++ [item]) (overlap_step qw b item).
Proof.
  destruct item as [term [[typ key] w]]. destruct b as [bm bs].
  unfold overlap_inv, overlap_step, Float.gtb. simpl.
  intros Hseen Hw [Hn [Hmax Hfirst]].
  destruct (overlap_score qw term w) as [sc|] eqn:Hsc.
  - pose proof (overlap_score_nonneg _ _ _ _ Hw Hsc) as Hscn.
    destruct (SFltb bs sc) eqn:Hlt; simpl.
    + split; [exact Hscn|]. split.
      * intros item s Hin Hs. apply in_app_or in Hin as [Hin|[<-|[]]].
        -- destruct (SFltb sc s) eqn:E; [|reflexivity].
           pose proof (Hmax item s Hin Hs) as Hle.
           pose proof (item_score_nonneg qw seen item s Hseen Hin Hs) as Hsn.
           rewrite (ltb_trans bs sc s Hn Hscn Hsn Hlt E) in Hle. discriminate.
        -- simpl in Hs. rewrite Hsc in Hs. injection Hs as <-.
           apply ltb_irrefl, Hscn.
      * exists seen, w, []. split; [reflexivity|]. split; [exact Hsc|].
        intros item s Hin Hs. pose proof (Hmax item s Hin Hs) as Hle.
        pose proof (item_score_nonneg qw seen item s Hseen Hin Hs) as Hsn.
        exact (le_ltb_trans s bs sc Hsn Hn Hscn Hle Hlt).
    + split; [exact Hn|]. split.
      * intros item s Hin Hs. apply in_app_or in Hin as [Hin|[<-|[]]].
        -- exact (Hmax item s Hin Hs).
        -- simpl in Hs. rewrite Hsc in Hs. injection Hs as <-. exact Hlt.
      * destruct bm as [[[ty k] t]|]; [|exact Hfirst].
        destruct Hfirst as [before [w0 [after [-> [H1 H2]]]]].
        exists before, w0, (after ++ [(term, (typ, key, w))]).
        rewrite <- app_assoc. simpl. auto.
  - split; [exact Hn|]. split.
    + intros item s Hin Hs. apply in_app_or in Hin as [Hin|[<-|[]]].
      * exact (Hmax item s Hin Hs).
      * simpl in Hs. congruence.
    + destruct bm as [[[ty k] t]|]; [|exact Hfirst].
      destruct Hfirst as [before [w0 [after [-> [H1 H2]]]]].
      exists before, w0, (after ++ [(term, (typ, key, w))]).
      rewrite <- app_assoc. simpl. auto.
Qed.

Lemma overlap_inv_fold (qw : list string) (l seen : list (string * vocab_value))
  (b : best) :
  weights_ok (seen ++ l) -> overlap_inv qw seen b ->
  overlap_inv qw (seen ++ l) (fold_left (overlap_step qw) l b).
Proof.
  revert seen b. induction l as [|item l IH]; intros seen b Hw Hinv; simpl.
  - rewrite app_nil_r. exact Hinv.
  - replace (seen ++ item :: l) with ((seen ++ [item]) ++ l) in *
      by (rewrite <- app_assoc; reflexivity).
    apply IH; [exact Hw|].
    unfold weights_ok in Hw. apply Forall_app in Hw as [Hw _].
    apply Forall_app in Hw as [Hseen Hitem].
    apply overlap_inv_step; [exact Hseen | | exact Hinv].
    inversion Hitem; assumption.
Qed.

Lemma overlap_best_inv (E : env) (clean : string) :
  overlap_inv (word_set (str_split clean)) (VOCAB E)
    (overlap_best (VOCAB E) clean).
Proof.
  unfold overlap_best.
  apply (overlap_inv_fold (word_set (str_split clean)) (VOCAB E) []).
  - change ([] ++ VOCAB E) with (VOCAB E). unfold VOCAB.
    exact (build_vocab_weights_ok (KB E) (GLOSSARY E) (MEDICINES E)).
  - unfold overlap_inv. simpl. split; [reflexivity|].
    split; [|reflexivity]. intros item s [].
Qed.

(** C5.  The word-overlap stage on the vocabulary of the program.  The loop
    ends with the greatest score under the comparison [>] of the code, and
    with the first term, in iteration order, that reaches it: every term
    before it scores strictly less.  The stage yields that term exactly
    when the best score is strictly above 0.3; a best score equal to 0.3
    yields no match and 0.31 is above the threshold. *)
Theorem overlap_first_maximum_above_threshold (E : env) (clean : string)
  (best_match : option (source_type * string * string))
  (best_score : Float.float) :
  overlap_best (VOCAB E) clean = (best_match, best_score) ->
  (forall item s,
      In item (VOCAB E) ->
      item_score (word_set (str_split clean)) item = Some s ->
      Float.gtb s best_score = false)
  /\ match best_match with
     | Some (typ, key, vocab_term) =>
         exists before weight after,
           VOCAB E = before ++ (vocab_term, (typ, key, weight)) :: after
           /\ overlap_score (word_set (str_split clean)) vocab_term weight
              = Some best_score
           /\ forall item s,
               In item before ->
               item_score (word_set (str_split clean)) item = Some s ->
               Float.gtb best_score s = true
     | None => best_score = Float.zero
     end
  /\ (Float.gtb best_score overlap_threshold = true ->
      exists typ key vocab_term,
        best_match = Some (typ, key, vocab_term)
        /\ overlap_match (VOCAB E) clean
           = Ok (Some (found typ key vocab_term General)))
  /\ (Float.gtb best_score overlap_threshold = false ->
      overlap_match (VOCAB E) clean = Ok None)
  /\ Float.gtb overlap_threshold overlap_threshold = false
  /\ Float.gtb (Float.ratio 31 100) overlap_threshold = true.
Proof.
  intros Hb. pose proof (overlap_best_inv E clean) as Hinv.
  rewrite Hb in Hinv. destruct Hinv as [Hn [Hmax Hfirst]]. simpl in *.
  split; [exact Hmax|]. split; [exact Hfirst|].
  split; [|split; [|split; vm_compute; reflexivity]].
  - intros Hgt. unfold overlap_match. rewrite Hb, Hgt.
    destruct best_match as [[[typ key] term]|].
    + exists typ, key, term. split; reflexivity.
    + subst best_score. discriminate.
  - intros Hgt. unfold overlap_match. rewrite Hb, Hgt. reflexivity.
Qed.

Lemma overlap_first_maximum_above_threshold_witness :
  overlap_best (VOCAB tb_env) (normalize (Some "Is TB a problem?"))
  = (Some (SrcMedicine, "TB", "tb"), overlap_threshold)
  /\ overlap_match (VOCAB tb_env) (normalize (Some "Is TB a problem?")) = Ok None
  /\ exists typ key vocab_term,
      overlap_match (VOCAB tb_env) (normalize (Some "Is TB bad?"))
      = Ok (Some (found typ key vocab_term General)).
Proof.
  split; [vm_compute; reflexivity|]. split.
  - apply (overlap_first_maximum_above_threshold tb_env
             (normalize (Some "Is TB a problem?"))
             (Some (SrcMedicine, "TB", "tb")) overlap_threshold);
      vm_compute; reflexivity.
  - assert (overlap_best (VOCAB tb_env) (normalize (Some "Is TB bad?"))
            = (Some (SrcMedicine, "TB", "tb"),
               Float.mul (Float.true_div 1 3) weight_medicine)) as Hb
        by (vm_compute; reflexivity).
    destruct (overlap_first_maximum_above_threshold tb_env _ _ _ Hb)
      as [_ [_ [Hacc _]]].
    assert (Float.gtb (Float.mul (Float.true_div 1 3) weight_medicine)
              overlap_threshold = true) as Hgt by (vm_compute; reflexivity).
    destruct (Hacc Hgt) as [typ [key [term [_ H]]]].
    exists typ, key, term. exact H.
Defined.

(** ** Computations of the handler *)

Lemma returns_ret {A} (ok : call -> Prop) (a : A) (P : A -> Prop) :
  P a -> returns ok (ret a) P.
Proof. intros H. exists [], a. repeat split; [constructor | exact H]. Qed.

Lemma returns_invoke {A} (ok : call -> Prop) (c : call) (a : A)
  (P : A -> Prop) :
  ok c -> P a -> returns ok (invoke c a) P.
Proof.
  intros Hc H. exists [c], a. repeat split; [|exact H].
  constructor; [exact Hc | constructor].
Qed.

Lemma returns_invoke_result {A} (ok : call -> Prop) (c : call)
  (r : result A) (a : A) (P : A -> Prop) :
  r = Ok a -> ok c -> P a -> returns ok (invoke_result c r) P.
Proof. intros ->. apply returns_invoke. Qed.

Lemma returns_bind {A B} (ok : call -> Prop) (m : M A) (f : A -> M B)
  (P : A -> Prop) (Q : B -> Prop) :
  returns ok m P -> (forall a, P a -> returns ok (f a) Q) ->
  returns ok (bind m f) Q.
Proof.
  intros [log [a [-> [Hlog Ha]]]] Hf.
  destruct (Hf a Ha) as [log' [b [Hfa [Hlog' Hb]]]].
  exists (log ++ log'), b. simpl. rewrite Hfa.
  repeat split; [apply Forall_app; split; assumption | exact Hb].
Qed.

Lemma bind_ok_log {A B} (m : M A) (f : A -> M B) (log : list call) (a : A) :
  m = (log, Ok a) -> fst (bind m f) = log ++ fst (f a).
Proof. intros ->. simpl. destruct (f a). reflexivity. Qed.

(** ** The cascade never raises *)

Lemma get_of_key {V} (k : string) (d : Dict.dict V) :
  In k (Dict.keys d) -> exists v, Dict.get k d = Some v.
Proof.
  induction d as [|[k' v'] d IH]; simpl; [intros []|].
  destruct (String.eqb k' k) eqn:Hk; [intros _; exists v'; reflexivity|].
  intros [H|H]; [|exact (IH H)].
  subst k'. rewrite String.eqb_refl in Hk. discriminate.
Qed.

Lemma overlap_match_ok (E : env) (clean : string) :
  exists o, overlap_match (VOCAB E) clean = Ok o.
Proof.
  pose proof (overlap_best_inv E clean) as [_ [_ Hfirst]].
  unfold overlap_match.
  destruct (overlap_best (VOCAB E) clean) as [bm bs]. simpl in Hfirst.
  destruct (Float.gtb bs overlap_threshold) eqn:Hgt; [|eexists; reflexivity].
  destruct bm as [[[typ key] term]|]; [eexists; reflexivity|].
  subst bs. vm_compute in Hgt. discriminate.
Qed.

Lemma fuzzy_match_ok (E : env) (clean : string) :
  close_matches_sound E ->
  exists m, fuzzy_match E (VOCAB E) clean = Ok m.
Proof.
  intros Hs. unfold fuzzy_match.
  destruct (get_close_matches E clean (Dict.keys (VOCAB E))) as [|m ms] eqn:Hg;
    [eexists; reflexivity|].
  assert (In m (Dict.keys (VOCAB E))) as Hin
      by (apply (Hs clean); rewrite Hg; left; reflexivity).
  destruct (get_of_key m (VOCAB E) Hin) as [[[typ key] w] ->].
  eexists; reflexivity.
Qed.

Lemma matching_ok (E : env) (user_text : string) :
  close_matches_sound E ->
  exists m, advanced_topic_matching E user_text = Ok m.
Proof.
  intros Hs. unfold advanced_topic_matching.
  destruct (negb (truthy user_text) || negb (truthy (str_strip user_text)));
    [eexists; reflexivity|].
  destruct (detect_special_medication_patterns user_text)
    as [[[[typ key] matched] prio]|]; [eexists; reflexivity|].
  destruct (exact_match _ _); [eexists; reflexivity|].
  destruct (substring_match _ _); [eexists; reflexivity|].
  destruct (medication_match _); [eexists; reflexivity|].
  destruct (overlap_match_ok E (normalize (Some user_text))) as [o ->].
  destruct o; [eexists; reflexivity|].
  apply fuzzy_match_ok, Hs.
Qed.

(** ** The exact and the substring stage *)

Lemma exact_match_get (d : Dict.dict vocab_value) (clean : string) :
  exact_match d clean
  = match Dict.get clean d with
    | Some (typ, key, _) => Some (found typ key clean General)
    | None => None
    end.
Proof.
  induction d as [|[term [[typ key] w]] d IH]; simpl; [reflexivity|].
  destruct (String.eqb term clean) eqn:Ht; [|exact IH].
  apply String.eqb_eq in Ht. subst term. reflexivity.
Qed.

Lemma substring_match_find (d : Dict.dict vocab_value) (clean : string) :
  substring_match d clean
  = match find (substring_hit clean) d with
    | Some (term, (typ, key, _)) => Some (found typ key term General)
    | None => None
    end.
Proof.
  induction d as [|[term [[typ key] w]] d IH]; simpl; [reflexivity|].
  unfold substring_hit at 1. simpl.
  destruct (Nat.ltb 2 (str_len term) && str_in term clean); [reflexivity|].
  exact IH.
Qed.

Lemma get_In {V} (k : string) (v : V) (d : Dict.dict V) :
  Dict.get k d = Some v -> In (k, v) d.
Proof.
  induction d as [|[k' v'] d IH]; simpl; [discriminate|].
  destruct (String.eqb k' k) eqn:Hk.
  - apply String.eqb_eq in Hk. intros H. injection H as ->. left. congruence.
  - intros H. right. exact (IH H).
Qed.

Lemma In_get {V} (k : string) (v : V) (d : Dict.dict V) :
  NoDup (Dict.keys d) -> In (k, v) d -> Dict.get k d = Some v.
Proof.
  induction d as [|[k' v'] d IH]; simpl; [intros _ []|].
  intros Hnd [H|H].
  - injection H as -> ->. rewrite String.eqb_refl. reflexivity.
  - inversion Hnd as [|? ? Hnotin Hnd']; subst.
    destruct (String.eqb k' k) eqn:Hk; [|exact (IH Hnd' H)].
    apply String.eqb_eq in Hk. subst k'. exfalso. apply Hnotin.
    apply (in_map fst) in H. exact H.
Qed.

(** Every synonym of the list is a key of the vocabulary. *)
Lemma synonym_in_vocab (kb g m : Dict.dict entry) (t : string) :
  In t medication_terms -> exists v, Dict.get t (build_vocab kb g m) = Some v.
Proof.
  intros Hin. unfold build_vocab. rewrite get_add_medication_terms.
  destruct (Dict.get t _) as [x|]; [exists x; reflexivity|].
  assert (mem_word t medication_terms = true) as ->.
  { unfold mem_word. apply existsb_exists. exists t. split; [exact Hin|].
    apply String.eqb_refl. }
  eexists; reflexivity.
Qed.

Lemma substring_match_complete (d : Dict.dict vocab_value) (clean : string)
  (item : string * vocab_value) :
  In item d -> substring_hit clean item = true ->
  substring_match d clean <> None.
Proof.
  intros Hin Hhit. rewrite substring_match_find.
  destruct (find (substring_hit clean) d) as [[term [[typ key] w]]|] eqn:Hf;
    [discriminate|].
  rewrite (find_none _ _ Hf item Hin) in Hhit. discriminate.
Qed.

Lemma domain_synonym_matches (E : env) (clean : string) :
  any_in domain_synonyms clean = true ->
  substring_match (VOCAB E) clean <> None.
Proof.
  unfold any_in. intros H. apply existsb_exists in H as [w [Hw Hin]].
  assert (In w medication_terms /\ Nat.ltb 2 (str_len w) = true) as [Hm Hlen].
  { simpl in Hw.
    destruct Hw as [<-|[<-|[<-|[<-|[]]]]]; split; try reflexivity;
      simpl; auto 10. }
  destruct (synonym_in_vocab (KB E) (GLOSSARY E) (MEDICINES E) w Hm) as [v Hv].
  apply (substring_match_complete (VOCAB E) clean (w, v)).
  - apply get_In, Hv.
  - unfold substring_hit. simpl. rewrite Hlen, Hin. reflexivity.
Qed.

Lemma medication_match_dead (E : env) (clean : string) :
  substring_match (VOCAB E) clean = None -> medication_match clean = None.
Proof.
  intros Hs. unfold medication_match.
  destruct (any_in domain_synonyms clean) eqn:H; [|reflexivity].
  exfalso. exact (domain_synonym_matches E clean H Hs).
Qed.

(** ** The keys of the vocabulary are distinct *)

Lemma in_keys_set {V} (x k : string) (v : V) (d : Dict.dict V) :
  In x (Dict.keys (Dict.set k v d)) -> x = k \/ In x (Dict.keys d).
Proof.
  induction d as [|[k' v'] d IH]; simpl.
  - intros [H|[]]. left. congruence.
  - destruct (String.eqb k' k); simpl; intros [H|H]; auto.
    destruct (IH H); auto.
Qed.

Lemma set_keys_nodup {V} (k : string) (v : V) (d : Dict.dict V) :
  NoDup (Dict.keys d) -> NoDup (Dict.keys (Dict.set k v d)).
Proof.
  induction d as [|[k' v'] d IH]; simpl; intros Hnd.
  - constructor; [intros [] | constructor].
  - inversion Hnd as [|? ? Hnotin Hnd']; subst.
    destruct (String.eqb k' k) eqn:Hk; simpl.
    + constructor; assumption.
    + constructor; [|exact (IH Hnd')].
      intros H. apply in_keys_set in H as [H|H]; [|exact (Hnotin H)].
      subst k'. rewrite String.eqb_refl in Hk. discriminate.
Qed.

Lemma assignments_keys_nodup {V} (ins : list (string * V)) (d : Dict.dict V) :
  NoDup (Dict.keys d) ->
  NoDup (Dict.keys (fold_left (fun d kx => Dict.set (fst kx) (snd kx) d) ins d)).
Proof.
  revert d. induction ins as [|[k v] ins IH]; intros d Hd; simpl; [exact Hd|].
  apply IH, set_keys_nodup, Hd.
Qed.

Lemma build_vocab_keys_nodup (kb g m : Dict.dict entry) :
  NoDup (Dict.keys (build_vocab kb g m)).
Proof.
  unfold build_vocab.
  assert (NoDup (Dict.keys (add_medicines m (add_glossary g (add_kb kb [])))))
    as H.
  { rewrite add_medicines_assignments, add_glossary_assignments,
      add_kb_assignments.
    repeat apply assignments_keys_nodup. constructor. }
  revert H. generalize (add_medicines m (add_glossary g (add_kb kb []))).
  unfold add_medication_terms.
  induction medication_terms as [|t terms IH]; intros v Hv; simpl; [exact Hv|].
  apply IH.
  match goal with |- NoDup (Dict.keys (if ?c then _ else _)) => destruct c end;
    [|exact Hv].
  apply set_keys_nodup, Hv.
Qed.

(** ** The cascade, case by case *)

Lemma overlap_match_shape (E : env) (clean : string) :
  overlap_match (VOCAB E) clean = Ok None
  \/ exists typ key term w,
      overlap_match (VOCAB E) clean = Ok (Some (found typ key term General))
      /\ In (term, (typ, key, w)) (VOCAB E).
Proof.
  pose proof (overlap_best_inv E clean) as [_ [_ Hfirst]].
  unfold overlap_match.
  destruct (overlap_best (VOCAB E) clean) as [bm bs]. simpl in Hfirst.
  destruct (Float.gtb bs overlap_threshold) eqn:Hgt; [|left; reflexivity].
  destruct bm as [[[typ key] term]|].
  - destruct Hfirst as [before [w [after [Hv _]]]].
    right. exists typ, key, term, w. split; [reflexivity|].
    rewrite Hv. apply in_elt.
  - subst bs. vm_compute in Hgt. discriminate.
Qed.

(** The result of the cascade on a text that is not blank and hits no
    special pattern: an exact match, else the first substring match, else
    the word-overlap match, else what the fuzzy stage gives.  The fourth
    stage is absent: see [medication_match_dead]. *)
Lemma matching_plain (E : env) (user_text : string) :
  blank_text user_text = false ->
  detect_special_medication_patterns user_text = None ->
  let clean := normalize (Some user_text) in
  (exists typ key w,
      Dict.get clean (VOCAB E) = Some (typ, key, w)
      /\ advanced_topic_matching E user_text = Ok (found typ key clean General))
  \/ (Dict.get clean (VOCAB E) = None
      /\ exists term typ key w,
          find (substring_hit clean) (VOCAB E) = Some (term, (typ, key, w))
          /\ advanced_topic_matching E user_text
             = Ok (found typ key term General))
  \/ (Dict.get clean (VOCAB E) = None
      /\ find (substring_hit clean) (VOCAB E) = None
      /\ exists typ key term w,
          In (term, (typ, key, w)) (VOCAB E)
          /\ overlap_match (VOCAB E) clean
             = Ok (Some (found typ key term General))
          /\ advanced_topic_matching E user_text
             = Ok (found typ key term General))
  \/ (Dict.get clean (VOCAB E) = None
      /\ find (substring_hit clean) (VOCAB E) = None
      /\ overlap_match (VOCAB E) clean = Ok None
      /\ advanced_topic_matching E user_text
         = fuzzy_match E (VOCAB E) clean).
Proof.
  intros Hb Hd clean. unfold advanced_topic_matching.
  fold (blank_text user_text). rewrite Hb, Hd. fold clean.
  rewrite exact_match_get.
  destruct (Dict.get clean (VOCAB E)) as [[[typ key] w]|] eqn:Hg.
  { left. exists typ, key, w. split; reflexivity. }
  right.
  destruct (substring_match (VOCAB E) clean) as [m|] eqn:Hs.
  { left. split; [reflexivity|]. rewrite substring_match_find in Hs.
    destruct (find (substring_hit clean) (VOCAB E))
      as [[term [[typ key] w]]|]; [|discriminate].
    injection Hs as <-. exists term, typ, key, w. split; reflexivity. }
  right. rewrite (medication_match_dead E clean Hs).
  rewrite substring_match_find in Hs.
  destruct (find (substring_hit clean) (VOCAB E))
    as [[term [[typ key] w]]|] eqn:Hf; [discriminate|].
  destruct (overlap_match_shape E clean)
    as [Ho|[typ [key [term [w [Ho Hin]]]]]]; rewrite Ho.
  - right. repeat split; reflexivity.
  - left. repeat split. exists typ, key, term, w. repeat split. exact Hin.
Qed.

(** ** Properties of the cascade beyond the claims *)

Lemma fuzzy_match_cases (E : env) (clean : string) :
  fuzzy_match E (VOCAB E) clean = Ok no_match
  \/ (exists typ key m w,
         Dict.get m (VOCAB E) = Some (typ, key, w)
         /\ fuzzy_match E (VOCAB E) clean = Ok (found typ key m General))
  \/ (exists k,
         fuzzy_match E (VOCAB E) clean = Raise (KeyError k)
         /\ In k (get_close_matches E clean (Dict.keys (VOCAB E)))
         /\ ~ In k (Dict.keys (VOCAB E))).
Proof.
  unfold fuzzy_match.
  destruct (get_close_matches E clean (Dict.keys (VOCAB E))) as [|m ms];
    [left; reflexivity|].
  right. destruct (Dict.get m (VOCAB E)) as [[[typ key] w]|] eqn:Hg.
  - left. exists typ, key, m, w. split; [exact Hg | reflexivity].
  - right. exists m. split; [reflexivity|]. split; [left; reflexivity|].
    intros Hin. destruct (get_of_key m (VOCAB E) Hin) as [v Hv]. congruence.
Qed.

(** X1.  The cascade returns either nothing at all or a type, a key and a
    matched term together.  It never fails on unpacking the best overlap
    match; the one exception it can raise is the [KeyError] of the fuzzy
    stage, and only when [get_close_matches] returns a term that is not a
    key of the vocabulary. *)
Theorem matching_outcome (E : env) (user_text : string) :
  (exists m,
      advanced_topic_matching E user_text = Ok m
      /\ (m = no_match
          \/ exists typ key matched q, m = found typ key matched q))
  \/ (exists k,
         advanced_topic_matching E user_text = Raise (KeyError k)
         /\ In k (get_close_matches E (normalize (Some user_text))
                    (Dict.keys (VOCAB E)))
         /\ ~ In k (Dict.keys (VOCAB E))).
Proof.
  destruct (blank_text user_text) eqn:Hb.
  { left. exists no_match. split; [|left; reflexivity].
    unfold advanced_topic_matching. fold (blank_text user_text).
    rewrite Hb. reflexivity. }
  destruct (detect_special_medication_patterns user_text)
    as [[[[typ key] p] prio]|] eqn:Hd.
  { left. rewrite (matching_special E _ _ _ _ _ Hd). eexists. split;
      [reflexivity|]. right. do 4 eexists. reflexivity. }
  destruct (matching_plain E user_text Hb Hd)
    as [[typ [key [w [_ H]]]]
       |[[_ [term [typ [key [w [_ H]]]]]]
        |[[_ [_ [typ [key [term [w [_ [_ H]]]]]]]]
         |[_ [_ [_ H]]]]]];
    try (left; eexists; split; [exact H|]; right; do 4 eexists; reflexivity).
  rewrite H.
  destruct (fuzzy_match_cases E (normalize (Some user_text)))
    as [Hf|[[typ [key [m [w [_ Hf]]]]]|[k [Hf Hk]]]].
  - left. exists no_match. split; [exact Hf | left; reflexivity].
  - left. eexists. split; [exact Hf|]. right. do 4 eexists. reflexivity.
  - right. exists k. split; [exact Hf | exact Hk].
Qed.

(** X2.  The fourth stage never decides.  The four domain synonyms are
    keys of every vocabulary and longer than two characters, so a text
    that contains one of them is matched by the substring stage already,
    with the question type "general". *)
Theorem domain_synonym_caught_by_substring_stage (E : env) (clean : string) :
  any_in domain_synonyms clean = true ->
  exists typ key term,
    substring_match (VOCAB E) clean = Some (found typ key term General)
    /\ 2 < str_len term
    /\ str_in term clean = true.
Proof.
  intros H. pose proof (domain_synonym_matches E clean H) as Hs.
  rewrite substring_match_find in Hs |- *.
  destruct (find (substring_hit clean) (VOCAB E))
    as [[term [[typ key] w]]|] eqn:Hf; [|contradiction].
  apply find_some in Hf as [_ Hhit]. unfold substring_hit in Hhit.
  simpl in Hhit. apply andb_true_iff in Hhit as [Hlen Hin].
  exists typ, key, term. split; [reflexivity|]. split; [|exact Hin].
  apply Nat.ltb_lt, Hlen.
Qed.

Lemma domain_synonym_caught_by_substring_stage_witness :
  medication_match (normalize (Some "List ART types"))
  = Some (found SrcMedicine "arv_examples" "arv examples" Examples)
  /\ advanced_topic_matching sample_env "List ART types"
     = Ok (found SrcGlossary "art" "art" General)
  /\ exists typ key term,
      substring_match (VOCAB sample_env) (normalize (Some "List ART types"))
      = Some (found typ key term General)
      /\ 2 < str_len term
      /\ str_in term (normalize (Some "List ART types")) = true.
Proof.
  split; [reflexivity|]. split; [vm_compute; reflexivity|].
  apply (domain_synonym_caught_by_substring_stage sample_env
           (normalize (Some "List ART types"))).
  reflexivity.
Defined.

(** X3.  Without a special pattern hit the question type of the cascade is
    always "general": "examples" and "definition" come from the special
    patterns only. *)
Theorem question_type_general_without_special_pattern (E : env)
  (user_text : string) (m : matching) :
  advanced_topic_matching E user_text = Ok m ->
  detect_special_medication_patterns user_text = None ->
  snd m = General.
Proof.
  intros Hm Hd. destruct (blank_text user_text) eqn:Hb.
  { unfold advanced_topic_matching in Hm. fold (blank_text user_text) in Hm.
    rewrite Hb in Hm. injection Hm as <-. reflexivity. }
  destruct (matching_plain E user_text Hb Hd)
    as [[typ [key [w [_ H]]]]
       |[[_ [term [typ [key [w [_ H]]]]]]
        |[[_ [_ [typ [key [term [w [_ [_ H]]]]]]]]
         |[_ [_ [_ H]]]]]];
    rewrite H in Hm; try (injection Hm as <-; reflexivity).
  destruct (fuzzy_match_cases E (normalize (Some user_text)))
    as [Hf|[[typ [key [t [w [_ Hf]]]]]|[k [Hf _]]]];
    rewrite Hf in Hm; try discriminate; injection Hm as <-; reflexivity.
Qed.

Lemma question_type_general_without_special_pattern_witness :
  advanced_topic_matching sample_env "Which ART names are there?"
  = Ok (found SrcGlossary "art" "art" General)
  /\ snd (found SrcGlossary "art" "art" General) = General.
Proof.
  split; [vm_compute; reflexivity|].
  apply (question_type_general_without_special_pattern sample_env
           "Which ART names are there?");
    vm_compute; reflexivity.
Defined.

Lemma nonblank_of_normalize (user_text : string) :
  normalize (Some user_text) <> "" -> blank_text user_text = false.
Proof.
  intros Hn. unfold blank_text. apply orb_false_iff.
  split; apply negb_false_iff.
  - destruct (truthy user_text) eqn:H; [reflexivity|].
    apply truthy_false in H. subst user_text. exfalso. apply Hn. reflexivity.
  - destruct (truthy (str_strip user_text)) eqn:H; [reflexivity|].
    exfalso. exact (Hn (blank_normalize _ H)).
Qed.

(** X4.  A text that hits no special pattern and whose normal form is a
    key of the vocabulary gets the entry stored under that key, with the
    normal form as the matched term, whatever the later stages would
    find. *)
Theorem exact_term_returns_its_entry (E : env) (user_text : string)
  (typ : source_type) (key : string) (w : Float.float) :
  blank_text user_text = false ->
  detect_special_medication_patterns user_text = None ->
  Dict.get (normalize (Some user_text)) (VOCAB E) = Some (typ, key, w) ->
  advanced_topic_matching E user_text
  = Ok (found typ key (normalize (Some user_text)) General).
Proof.
  intros Hb Hd Hg.
  destruct (matching_plain E user_text Hb Hd)
    as [[typ' [key' [w' [Hg' H]]]]|[[Hn _]|[[Hn _]|[Hn _]]]];
    try congruence.
Qed.

Lemma exact_term_returns_its_entry_witness :
  advanced_topic_matching tb_env " TB? "
  = Ok (found SrcMedicine "TB" "tb" General).
Proof.
  apply (exact_term_returns_its_entry tb_env " TB? " SrcMedicine "TB"
           weight_medicine);
    vm_compute; reflexivity.
Defined.

(** X5.  Whenever the cascade returns a match that does not come from a
    special pattern, the matched term is a key of the vocabulary and the
    type and key returned are the ones stored under it. *)
Theorem matched_term_is_vocabulary_key (E : env) (user_text : string)
  (typ : source_type) (key matched : string) (q : question_type) :
  advanced_topic_matching E user_text = Ok (found typ key matched q) ->
  detect_special_medication_patterns user_text = None ->
  exists w, Dict.get matched (VOCAB E) = Some (typ, key, w).
Proof.
  intros Hm Hd. destruct (blank_text user_text) eqn:Hb.
  { unfold advanced_topic_matching in Hm. fold (blank_text user_text) in Hm.
    rewrite Hb in Hm. discriminate. }
  pose proof (build_vocab_keys_nodup (KB E) (GLOSSARY E) (MEDICINES E)) as Hnd.
  fold (VOCAB E) in Hnd.
  destruct (matching_plain E user_text Hb Hd)
    as [[typ' [key' [w' [Hg H]]]]
       |[[_ [term [typ' [key' [w' [Hf H]]]]]]
        |[[_ [_ [typ' [key' [term [w' [Hin [_ H]]]]]]]]
         |[_ [_ [_ H]]]]]];
    rewrite H in Hm.
  - injection Hm as <- <- <- _. exists w'. exact Hg.
  - injection Hm as <- <- <- _. exists w'.
    apply find_some in Hf as [Hin _]. exact (In_get _ _ _ Hnd Hin).
  - injection Hm as <- <- <- _. exists w'. exact (In_get _ _ _ Hnd Hin).
  - destruct (fuzzy_match_cases E (normalize (Some user_text)))
      as [Hf|[[typ' [key' [t [w' [Hg Hf]]]]]|[k [Hf _]]]];
      rewrite Hf in Hm; try discriminate.
    injection Hm as <- <- <- _. exists w'. exact Hg.
Qed.

Lemma matched_term_is_vocabulary_key_witness :
  advanced_topic_matching sample_env "Is HIV treatment free?"
  = Ok (found SrcKb "hiv_treatment" "hiv treatment" General)
  /\ exists w,
      Dict.get "hiv treatment" (VOCAB sample_env)
      = Some (SrcKb, "hiv_treatment", w).
Proof.
  split; [vm_compute; reflexivity|].
  apply (matched_term_is_vocabulary_key sample_env "Is HIV treatment free?"
           SrcKb "hiv_treatment" "hiv treatment" General);
    vm_compute; reflexivity.
Defined.

(** X6.  The cascade looks at the normal form only: two texts with the
    same non-empty normal form (case, punctuation and spacing apart) get
    the same result. *)
Theorem matching_depends_on_normal_form (E : env) (text1 text2 : string) :
  normalize (Some text1) = normalize (Some text2) ->
  normalize (Some text1) <> "" ->
  advanced_topic_matching E text1 = advanced_topic_matching E text2.
Proof.
  intros Heq Hne.
  pose proof (nonblank_of_normalize text1 Hne) as H1.
  rewrite Heq in Hne.
  pose proof (nonblank_of_normalize text2 Hne) as H2.
  unfold advanced_topic_matching, detect_special_medication_patterns.
  fold (blank_text text1). fold (blank_text text2).
  rewrite H1, H2, Heq. reflexivity.
Qed.

Lemma matching_depends_on_normal_form_witness :
  advanced_topic_matching sample_env "What is HIV?"
  = advanced_topic_matching sample_env "  what... IS hiv"
  /\ advanced_topic_matching sample_env "What is HIV?"
     = Ok (found SrcGlossary "hiv" "what is hiv" Definition_).
Proof.
  split; [|vm_compute; reflexivity].
  apply (matching_depends_on_normal_form sample_env);
    [vm_compute; reflexivity | vm_compute; discriminate].
Defined.

(** ** Containment *)

Lemma starts_with_split (p s : list ascii) :
  Text.starts_with p s = true -> exists l, s = p ++ l.
Proof.
  revert s. induction p as [|a p IH]; intros s; simpl.
  - intros _. exists s. reflexivity.
  - destruct s as [|b s]; [discriminate|].
    intros H. apply andb_true_iff in H as [Hab Hp].
    apply Ascii.eqb_eq in Hab. subst b.
    destruct (IH s Hp) as [l ->]. exists l. reflexivity.
Qed.

Lemma contains_split (p s : list ascii) :
  Text.contains p s = true -> exists l1 l2, s = l1 ++ p ++ l2.
Proof.
  induction s as [|c s IH]; simpl; intros H.
  - rewrite orb_false_r in H. destruct (starts_with_split p [] H) as [l Hl].
    exists [], l. exact Hl.
  - apply orb_true_iff in H as [H|H].
    + destruct (starts_with_split p (c :: s) H) as [l Hl].
      exists [], l. exact Hl.
    + destruct (IH H) as [l1 [l2 ->]]. exists (c :: l1), l2. reflexivity.
Qed.

Lemma starts_with_app (p l : list ascii) : Text.starts_with p (p ++ l) = true.
Proof.
  induction p as [|a p IH]; simpl; [reflexivity|].
  rewrite Ascii.eqb_refl. exact IH.
Qed.

Lemma contains_app (p l1 l2 : list ascii) :
  Text.contains p (l1 ++ p ++ l2) = true.
Proof.
  induction l1 as [|c l1 IH].
  - simpl app. destruct (p ++ l2) eqn:E; simpl; rewrite <- ?E;
      rewrite starts_with_app; reflexivity.
  - simpl. rewrite IH. apply orb_true_r.
Qed.

(** [p in s] is containment: [s] is some text, then [p], then some text. *)
Lemma str_in_iff_infix (p s : string) :
  str_in p s = true <-> exists l1 l2, chars s = l1 ++ chars p ++ l2.
Proof.
  unfold str_in. split.
  - apply contains_split.
  - intros [l1 [l2 ->]]. apply contains_app.
Qed.

(** X7.  The exact and the substring stage compare vocabulary terms with a
    normalized text, so a term they return holds only characters of
    [[a-z0-9]] and single spaces: a key with any other character (a tag
    such as "HIV/AIDS" is stored lower-cased, not normalized) is out of
    their reach. *)
Theorem exact_and_substring_terms_are_plain (d : Dict.dict vocab_value)
  (x : option string) (typ : source_type) (key term : string)
  (q : question_type) :
  exact_match d (normalize x) = Some (found typ key term q)
  \/ substring_match d (normalize x) = Some (found typ key term q) ->
  Forall (fun c => is_alnum c = true \/ c = space) (chars term)
  /\ forall l1 l2, chars term <> l1 ++ space :: space :: l2.
Proof.
  pose proof (normalize_canonical x) as Hc.
  pose proof (canonical_wellspaced _ Hc) as Hw.
  intros H.
  assert (str_in term (normalize x) = true) as Hin.
  { destruct H as [H|H].
    - rewrite exact_match_get in H.
      destruct (Dict.get (normalize x) d) as [[[t k] w]|]; [|discriminate].
      injection H as _ _ <- _. unfold str_in.
      rewrite <- (app_nil_r (chars (normalize x))) at 2.
      apply (contains_app _ [] []).
    - rewrite substring_match_find in H.
      destruct (find (substring_hit (normalize x)) d)
        as [[t [[ty k] w]]|] eqn:Hf; [|discriminate].
      injection H as _ _ <- _. apply find_some in Hf as [_ Hhit].
      unfold substring_hit in Hhit. apply andb_true_iff in Hhit. tauto. }
  apply contains_split in Hin as [l1 [l2 Hs]]. split.
  - pose proof (wellspaced_chars _ Hw) as Hall. rewrite Hs in Hall.
    apply Forall_app in Hall as [_ Hall]. apply Forall_app in Hall. tauto.
  - intros a b Ht. rewrite Hs, Ht in Hw.
    replace (l1 ++ (a ++ space :: space :: b) ++ l2)
      with ((l1 ++ a) ++ space :: space :: (b ++ l2)) in Hw
      by (rewrite <- !app_assoc; reflexivity).
    rewrite wellspaced_no_double in Hw. discriminate.
Qed.

Lemma exact_and_substring_terms_are_plain_witness :
  Dict.get "hiv/aids" (VOCAB slash_tag_env)
  = Some (SrcKb, "hiv_aids", weight_kb)
  /\ advanced_topic_matching slash_tag_env "HIV/AIDS"
     = Ok (found SrcMedicine "arv_examples" "hiv drug" General)
  /\ substring_match (VOCAB slash_tag_env) (normalize (Some "about ARV!"))
     = Some (found SrcMedicine "arv_examples" "arv" General)
  /\ Forall (fun c => is_alnum c = true \/ c = space) (chars "arv").
Proof.
  split; [vm_compute; reflexivity|]. split; [vm_compute; reflexivity|].
  split; [vm_compute; reflexivity|].
  apply (exact_and_substring_terms_are_plain (VOCAB slash_tag_env)
           (Some "about ARV!") SrcMedicine "arv_examples" "arv" General).
  right. vm_compute. reflexivity.
Defined.

Lemma find_first {A} (f : A -> bool) (l : list A) (x : A) :
  find f l = Some x ->
  exists before after,
    l = before ++ x :: after /\ f x = true
    /\ forall y, In y before -> f y = false.
Proof.
  induction l as [|a l IH]; simpl; [discriminate|].
  destruct (f a) eqn:Ha.
  - intros H. injection H as ->. exists [], l. repeat split; [exact Ha|].
    intros y [].
  - intros H. destruct (IH H) as [before [after [-> [Hx Hb]]]].
    exists (a :: before), after. repeat split; [exact Hx|].
    intros y [<-|Hy]; [exact Ha | exact (Hb y Hy)].
Qed.

(** X8.  The substring stage returns the first term of the vocabulary, in
    iteration order, that is longer than two characters and contained in
    the text; terms of one or two characters never match by containment;
    it returns nothing only when no term qualifies. *)
Theorem substring_stage_first_hit (d : Dict.dict vocab_value) (clean : string) :
  match substring_match d clean with
  | Some m =>
      exists before term typ key w after,
        d = before ++ (term, (typ, key, w)) :: after
        /\ m = found typ key term General
        /\ 2 < str_len term
        /\ str_in term clean = true
        /\ forall t v, In (t, v) before ->
                       str_len t <= 2 \/ str_in t clean = false
  | None =>
      forall t v, In (t, v) d -> str_len t <= 2 \/ str_in t clean = false
  end.
Proof.
  assert (forall t (v : vocab_value),
             substring_hit clean (t, v) = false ->
             str_len t <= 2 \/ str_in t clean = false) as Hmiss.
  { intros t v H. unfold substring_hit in H. simpl in H.
    apply andb_false_iff in H as [H|H]; [left | right; exact H].
    apply Nat.ltb_ge in H. exact H. }
  rewrite substring_match_find.
  destruct (find (substring_hit clean) d) as [[term [[typ key] w]]|] eqn:Hf.
  - destruct (find_first _ _ _ Hf) as [before [after [Hd [Hhit Hb]]]].
    unfold substring_hit in Hhit. simpl in Hhit.
    apply andb_true_iff in Hhit as [Hlen Hin].
    exists before, term, typ, key, w, after.
    repeat split; [exact Hd | apply Nat.ltb_lt, Hlen | exact Hin |].
    intros t v Hi. exact (Hmiss t v (Hb _ Hi)).
  - intros t v Hi. exact (Hmiss t v (find_none _ _ Hf _ Hi)).
Qed.

Lemma blank_strip (s : list ascii) :
  forallb is_space s = true -> Text.strip s = [].
Proof.
  unfold Text.strip. induction s as [|c s IH]; simpl; [reflexivity|].
  intros H. apply andb_true_iff in H as [Hc Hs]. rewrite Hc. exact (IH Hs).
Qed.

Lemma blank_text_iff (user_text : string) :
  blank_text user_text = true <-> forallb is_space (chars user_text) = true.
Proof.
  unfold blank_text. split.
  - intros H. apply orb_true_iff in H as [H|H]; apply negb_true_iff in H.
    + apply truthy_false in H. subst. reflexivity.
    + apply truthy_false, text_empty in H. apply strip_empty_blank, H.
  - intros H. apply orb_true_iff. right. apply negb_true_iff.
    unfold str_strip. rewrite (blank_strip _ H). reflexivity.
Qed.

(** X9.  On a text that is empty or holds whitespace only the cascade
    returns nothing, whatever the collections and [get_close_matches]
    are; every other text passes the guard, also one that normalizes to
    the empty string. *)
Theorem matching_of_blank_text (E : env) (user_text : string) :
  (forallb is_space (chars user_text) = true ->
   advanced_topic_matching E user_text = Ok no_match)
  /\ (forallb is_space (chars user_text) = false ->
      advanced_topic_matching E user_text
      = match detect_special_medication_patterns user_text with
        | Some (typ, key, matched, _) =>
            Ok (found typ key matched
                  (if str_in "examples" matched then Examples else Definition_))
        | None =>
            match Dict.get (normalize (Some user_text)) (VOCAB E) with
            | Some (typ, key, _) =>
                Ok (found typ key (normalize (Some user_text)) General)
            | None =>
                match substring_match (VOCAB E) (normalize (Some user_text)) with
                | Some m => Ok m
                | None =>
                    match overlap_match (VOCAB E) (normalize (Some user_text)) with
                    | Ok (Some m) => Ok m
                    | Ok None =>
                        fuzzy_match E (VOCAB E) (normalize (Some user_text))
                    | Raise e => Raise e
                    end
                end
            end
        end).
Proof.
  split; intros H.
  - apply blank_text_iff in H. unfold advanced_topic_matching.
    fold (blank_text user_text). rewrite H. reflexivity.
  - assert (blank_text user_text = false) as Hb.
    { destruct (blank_text user_text) eqn:Hb; [|reflexivity].
      apply blank_text_iff in Hb. congruence. }
    unfold advanced_topic_matching. fold (blank_text user_text). rewrite Hb.
    destruct (detect_special_medication_patterns user_text)
      as [[[[typ key] p] prio]|]; [reflexivity|].
    rewrite exact_match_get.
    destruct (Dict.get _ (VOCAB E)) as [[[typ key] w]|]; [reflexivity|].
    destruct (substring_match _ _) eqn:Hs; [reflexivity|].
    rewrite (medication_match_dead E _ Hs). reflexivity.
Qed.

Lemma matching_of_blank_text_witness :
  advanced_topic_matching sample_env "   " = Ok no_match
  /\ advanced_topic_matching sample_env "?!" = Ok no_match.
Proof.
  split.
  - destruct (matching_of_blank_text sample_env "   ") as [H _].
    exact (H eq_refl).
  - destruct (matching_of_blank_text sample_env "?!") as [_ H].
    rewrite (H eq_refl). vm_compute. reflexivity.
Defined.

(** ** [strip] *)

Lemma lstrip_head (s : list ascii) :
  match Text.lstrip s with [] => True | c :: _ => is_space c = false end.
Proof.
  induction s as [|c s IH]; simpl; [trivial|].
  destruct (is_space c) eqn:Hc; [exact IH | exact Hc].
Qed.

Lemma rstrip_idempotent (s : list ascii) :
  Text.rstrip (Text.rstrip s) = Text.rstrip s.
Proof.
  induction s as [|c s IH]; simpl; [reflexivity|].
  destruct (Text.rstrip s) as [|d r] eqn:Hr.
  - destruct (is_space c) eqn:Hc; [reflexivity|]. simpl. rewrite Hc. reflexivity.
  - change (Text.rstrip (c :: d :: r))
      with (match Text.rstrip (d :: r) with
            | [] => if is_space c then [] else [c]
            | x :: r' => c :: x :: r'
            end).
    rewrite IH. reflexivity.
Qed.

Lemma strip_idempotent (s : list ascii) :
  Text.strip (Text.strip s) = Text.strip s.
Proof.
  unfold Text.strip.
  pose proof (lstrip_head s) as Hl. pose proof (rstrip_head (Text.lstrip s)) as Hr.
  destruct (Text.rstrip (Text.lstrip s)) as [|d r] eqn:E; [reflexivity|].
  destruct (Text.lstrip s) as [|c t]; [contradiction|]. subst d.
  simpl Text.lstrip. rewrite Hl. rewrite <- E. apply rstrip_idempotent.
Qed.

Lemma str_strip_idempotent (s : string) : str_strip (str_strip s) = str_strip s.
Proof. unfold str_strip. rewrite chars_text, strip_idempotent. reflexivity. Qed.

Lemma truthy_true (s : string) : truthy s = true -> s <> "".
Proof. intros H E. subst s. discriminate. Qed.

(** ** The QA fallback and the translation helpers *)





(** ** The iteration order of the vocabulary *)

Lemma mem_word_In (x : string) (l : list string) :
  mem_word x l = true <-> In x l.
Proof.
  unfold mem_word. rewrite existsb_exists. split.
  - intros [y [Hy He]]. apply String.eqb_eq in He. subst y. exact Hy.
  - intros H. exists x. split; [exact H | apply String.eqb_refl].
Qed.

Lemma mem_word_ext (s1 s2 : list string) (x : string) :
  (forall y, In y s1 <-> In y s2) -> mem_word x s1 = mem_word x s2.
Proof.
  intros H. destruct (mem_word x s2) eqn:E.
  - apply mem_word_In, H, mem_word_In, E.
  - destruct (mem_word x s1) eqn:E1; [|reflexivity].
    apply mem_word_In, H, mem_word_In in E1. congruence.
Qed.

Lemma new_terms_ext (l s1 s2 : list string) :
  (forall y, In y s1 <-> In y s2) -> new_terms s1 l = new_terms s2 l.
Proof.
  revert s1 s2. induction l as [|x l IH]; intros s1 s2 H; simpl; [reflexivity|].
  rewrite (mem_word_ext s1 s2 x H).
  destruct (mem_word x s2); [exact (IH _ _ H)|].
  f_equal. apply IH. intros y. simpl. rewrite H. tauto.
Qed.

Lemma new_terms_app (a b s : list string) :
  new_terms s (a ++ b) = new_terms s a ++ new_terms (s ++ new_terms s a) b.
Proof.
  revert s. induction a as [|x a IH]; intros s; simpl.
  - rewrite app_nil_r. reflexivity.
  - destruct (mem_word x s) eqn:E; [apply IH|].
    simpl. f_equal. rewrite IH. f_equal. apply new_terms_ext.
    intros y. simpl. rewrite ?in_app_iff. simpl. rewrite ?in_app_iff. tauto.
Qed.

Lemma keys_set {V} (k : string) (v : V) (d : Dict.dict V) :
  Dict.keys (Dict.set k v d)
  = if mem_word k (Dict.keys d) then Dict.keys d else Dict.keys d ++ [k].
Proof.
  induction d as [|[k' v'] d IH]; simpl; [reflexivity|].
  rewrite (String.eqb_sym k k').
  destruct (String.eqb k' k) eqn:Hk; simpl; [reflexivity|].
  rewrite IH. destruct (mem_word k (Dict.keys d)); reflexivity.
Qed.

Lemma mem_keys {V} (k : string) (d : Dict.dict V) :
  Dict.mem k d = mem_word k (Dict.keys d).
Proof.
  unfold Dict.mem. induction d as [|[k' v'] d IH]; simpl; [reflexivity|].
  rewrite (String.eqb_sym k k').
  destruct (String.eqb k' k); [reflexivity | exact IH].
Qed.

Lemma keys_assignments {V} (ins : list (string * V)) (d : Dict.dict V) :
  Dict.keys (fold_left (fun d kx => Dict.set (fst kx) (snd kx) d) ins d)
  = Dict.keys d ++ new_terms (Dict.keys d) (map fst ins).
Proof.
  revert d. induction ins as [|[k v] ins IH]; intros d; simpl.
  - rewrite app_nil_r. reflexivity.
  - rewrite IH, keys_set.
    destruct (mem_word k (Dict.keys d)); [reflexivity|].
    rewrite <- app_assoc. simpl. do 2 f_equal. apply new_terms_ext.
    intros y. simpl. rewrite ?in_app_iff. simpl. tauto.
Qed.

Lemma keys_add_medication_terms (terms : list string)
  (d : Dict.dict vocab_value) :
  Dict.keys (add_medication_terms terms d)
  = Dict.keys d ++ new_terms (Dict.keys d) terms.
Proof.
  unfold add_medication_terms, vocab_value in *.
  revert d. induction terms as [|t terms IH]; intros d; simpl.
  - rewrite app_nil_r. reflexivity.
  - rewrite IH. rewrite mem_keys.
    destruct (mem_word t (Dict.keys d)) eqn:E; simpl; [reflexivity|].
    rewrite keys_set, E, <- app_assoc. simpl. do 2 f_equal.
    apply new_terms_ext. intros y. simpl. rewrite ?in_app_iff. simpl. tauto.
Qed.

(** X12.  The iteration order of the vocabulary is the order in which the
    terms are first produced: the lower-cased tags of the facts, then the
    glossary terms, the medicines and the synonyms that were not produced
    before.  A term that is overwritten keeps its first place. *)
Theorem vocabulary_iteration_order (kb g m : Dict.dict entry) :
  Dict.keys (build_vocab kb g m) = new_terms [] (produced_terms kb g m)
  /\ NoDup (Dict.keys (build_vocab kb g m)).
Proof.
  split; [|apply build_vocab_keys_nodup].
  unfold build_vocab, produced_terms.
  rewrite keys_add_medication_terms.
  rewrite add_medicines_assignments, add_glossary_assignments,
    add_kb_assignments.
  rewrite !keys_assignments. simpl Dict.keys. simpl app.
  rewrite !new_terms_app. simpl app. rewrite <- !app_assoc. reflexivity.
Qed.

(** ** The handler beyond the claims *)

(** X13.  The handler trims the message before anything else: a message
    and the same message without its leading and trailing whitespace get
    the same calls and the same response. *)
Theorem chat_trims_message (E : env) (s : string) (lg : option json) :
  chat E (mk_request (Some (JString s)) lg)
  = chat E (mk_request (Some (JString (str_strip s))) lg).
Proof.
  unfold chat, answer. cbn [message requested_lang req_lang].
  rewrite !str_strip_idempotent. reflexivity.
Qed.

Lemma resolver_text_nonempty (E : env) (key : string) (q : question_type)
  (l : lang) (c : string) :
  generate_targeted_response E key q l = Some c -> truthy c = true.
Proof.
  unfold generate_targeted_response. rewrite !lookup_in_usable.
  intros H.
  assert (c <> "") as Hc.
  { destruct (usable_text (KB E) key l) eqn:H1.
    { injection H as ->. exact (usable_text_truthy _ _ _ _ H1). }
    destruct (usable_text (MEDICINES E) key l) eqn:H2.
    { injection H as ->. exact (usable_text_truthy _ _ _ _ H2). }
    destruct (usable_text (GLOSSARY E) key l) eqn:H3; [|discriminate].
    injection H as ->. exact (usable_text_truthy _ _ _ _ H3). }
  unfold truthy. destruct (String.eqb c "") eqn:E0; [|reflexivity].
  apply String.eqb_eq in E0. contradiction.
Qed.

(** X14.  When the cascade finds a key and the resolver has a text for it
    in the language of the request, the response is that text followed by
    the disclaimer of that language, and the handler calls neither the QA
    fallback (loaded or not) nor the resolver a second time. *)
Theorem chat_answers_with_resolved_match (E : env) (data : request)
  (s : string) (typ : source_type) (key : string) (matched : option string)
  (q : question_type) (c : string) :
  message data = Some (JString s) ->
  str_strip s <> "" ->
  advanced_topic_matching E (str_strip s) = Ok (Some typ, Some key, matched, q) ->
  key <> "" ->
  generate_targeted_response E key q
    (resolved_lang (requested_lang data) (str_strip s)) = Some c ->
  chat E data
  = ((match requested_lang data with
      | En => [CallIsSesotho (str_strip s)]
      | St => []
      end)
     ++ [CallMatching (str_strip s);
         CallResponse key q (resolved_lang (requested_lang data) (str_strip s))],
     Ok (c ++ disclaimer (resolved_lang (requested_lang data) (str_strip s)))%string).
Proof.
  intros Hm Hs Ha Hk Hg.
  assert (Nat.eqb (str_len (str_strip s)) 0 = false) as Hlen.
  { destruct (str_strip s); [contradiction | reflexivity]. }
  assert (truthy key = true) as Hkt.
  { unfold truthy. destruct (String.eqb key "") eqn:E0; [|reflexivity].
    apply String.eqb_eq in E0. contradiction. }
  pose proof (resolver_text_nonempty _ _ _ _ _ Hg) as Hc.
  unfold chat. rewrite Hm, Hlen. unfold answer.
  destruct (requested_lang data); simpl resolved_lang in *.
  - destruct (is_sesotho (str_strip s));
      unfold invoke_result, bind, invoke, ret, no_reply, truthy_opt;
      rewrite Ha; cbv beta iota zeta; rewrite Hkt, Hg;
      cbv beta iota zeta; rewrite ?Hc;
      cbv beta iota zeta delta [negb app]; rewrite ?Hc;
      cbv beta iota zeta delta [negb app]; reflexivity.
  - unfold invoke_result, bind, invoke, ret, no_reply, truthy_opt.
    rewrite Ha. cbv beta iota zeta. rewrite Hkt, Hg.
    cbv beta iota zeta. rewrite ?Hc.
    cbv beta iota zeta delta [negb app]. rewrite ?Hc.
    cbv beta iota zeta delta [negb app]. reflexivity.
Qed.

Lemma chat_answers_with_resolved_match_witness :
  chat sample_env (mk_request (Some (JString " What is ARV? ")) None)
  = ([CallIsSesotho "What is ARV?"; CallMatching "What is ARV?";
      CallResponse "art" Definition_ En],
     Ok ("ART means antiretroviral therapy." ++ disclaimer En)%string).
Proof.
  apply (chat_answers_with_resolved_match sample_env
           (mk_request (Some (JString " What is ARV? ")) None)
           " What is ARV? " SrcGlossary "art" (Some "what is arv")
           Definition_ "ART means antiretroviral therapy.");
    try (vm_compute; reflexivity); vm_compute; discriminate.
Defined.

Lemma no_match_no_synonym (E : env) (user_text : string) :
  blank_text user_text = false ->
  advanced_topic_matching E user_text = Ok no_match ->
  last_resort_key (normalize (Some user_text)) = None.
Proof.
  intros Hb Ha.
  destruct (detect_special_medication_patterns user_text)
    as [[[[typ key] p] prio]|] eqn:Hd.
  { rewrite (matching_special E _ _ _ _ _ Hd) in Ha. discriminate. }
  assert (substring_match (VOCAB E) (normalize (Some user_text)) = None) as Hs.
  { rewrite substring_match_find.
    destruct (matching_plain E user_text Hb Hd)
      as [[typ [key [w [_ H]]]]
         |[[_ [term [typ [key [w [_ H]]]]]]
          |[[_ [Hf [typ [key [term [w [_ [_ H]]]]]]]]
           |[_ [Hf _]]]]];
      try (rewrite H in Ha; discriminate); rewrite Hf; reflexivity. }
  pose proof (medication_match_dead E _ Hs) as Hm.
  unfold medication_match in Hm. unfold last_resort_key.
  change (any_in ["arv"; "art"; "hiv drug"; "antiretroviral"]
            (normalize (Some user_text)))
    with (any_in domain_synonyms (normalize (Some user_text))).
  destruct (any_in domain_synonyms (normalize (Some user_text)));
    [|reflexivity].
  destruct (any_in ["example"; "list"; "type"; "name"] _); discriminate.
Qed.

Lemma truthy_blank_text (t : string) :
  str_strip t = t -> t <> "" -> blank_text t = false.
Proof.
  intros Hs Hne. unfold blank_text. rewrite Hs.
  assert (truthy t = true) as ->; [|reflexivity].
  unfold truthy. destruct (String.eqb t "") eqn:E0; [|reflexivity].
  apply String.eqb_eq in E0. contradiction.
Qed.

(** X15.  When the cascade finds nothing and the QA fallback (if the
    pipeline is loaded at all) gives no reply, the response is the canned
    fallback text of the language of the request followed by its
    disclaimer.  The domain-keyword test of the final fallback cannot help
    then: a text with a domain synonym is always matched by the cascade. *)
Theorem chat_falls_back_when_nothing_matches (E : env) (data : request)
  (s : string) :
  message data = Some (JString s) ->
  str_strip s <> "" ->
  advanced_topic_matching E (str_strip s) = Ok no_match ->
  match qa_model E with
  | Some _ =>
      no_reply (smart_qa_fallback E (str_strip s)
                  (resolved_lang (requested_lang data) (str_strip s))) = true
  | None => True
  end ->
  chat E data
  = ((match requested_lang data with
      | En => [CallIsSesotho (str_strip s)]
      | St => []
      end)
     ++ [CallMatching (str_strip s)]
     ++ (match qa_model E with
         | Some _ =>
             [CallQA (str_strip s)
                (resolved_lang (requested_lang data) (str_strip s))]
         | None => []
         end),
     Ok (fallback_responses (resolved_lang (requested_lang data) (str_strip s))
         ++ disclaimer (resolved_lang (requested_lang data) (str_strip s)))%string).
Proof.
  intros Hm Hs Ha Hqa.
  assert (Nat.eqb (str_len (str_strip s)) 0 = false) as Hlen.
  { destruct (str_strip s); [contradiction | reflexivity]. }
  pose proof (no_match_no_synonym E (str_strip s)
                (truthy_blank_text _ (str_strip_idempotent s) Hs) Ha) as Hlr.
  unfold chat. rewrite Hm, Hlen. unfold answer.
  destruct (requested_lang data); simpl resolved_lang in *.
  - destruct (is_sesotho (str_strip s));
      unfold invoke_result, bind, invoke, ret;
      rewrite Ha; unfold no_match; cbv beta iota zeta;
      change (no_reply None) with true; cbv beta iota zeta;
      (destruct (qa_model E);
       [ cbv beta iota zeta; rewrite Hqa, Hlr; cbv beta iota zeta;
         rewrite Hqa; reflexivity
       | cbv beta iota zeta; change (no_reply None) with true;
         rewrite Hlr; reflexivity ]).
  - unfold invoke_result, bind, invoke, ret.
    rewrite Ha. unfold no_match. cbv beta iota zeta.
    change (no_reply None) with true. cbv beta iota zeta.
    destruct (qa_model E).
    + cbv beta iota zeta. rewrite Hqa, Hlr. cbv beta iota zeta.
      rewrite Hqa. reflexivity.
    + cbv beta iota zeta. change (no_reply None) with true.
      rewrite Hlr. reflexivity.
Qed.

Lemma chat_falls_back_when_nothing_matches_witness :
  chat sample_env (mk_request (Some (JString "ke utloa bohloko")) None)
  = ([CallIsSesotho "ke utloa bohloko"; CallMatching "ke utloa bohloko"],
     Ok (fallback_responses St ++ disclaimer St)%string).
Proof.
  apply (chat_falls_back_when_nothing_matches sample_env
           (mk_request (Some (JString "ke utloa bohloko")) None)
           "ke utloa bohloko");
    try (vm_compute; reflexivity); try exact I; vm_compute; discriminate.
Defined.

(** ** Every request is answered *)

Lemma final_reply_nonempty (reply : option string) (l : lang) :
  (if no_reply reply then fallback_responses l
   else match reply with Some r => r | None => "" end) <> "".
Proof.
  unfold no_reply, truthy_opt.
  destruct reply as [r|]; simpl; [|destruct l; discriminate].
  destruct (truthy r) eqn:Hr; simpl; [apply truthy_true, Hr|].
  destruct l; discriminate.
Qed.

Lemma resolved_lang_flip (l : lang) (t : string) :
  (if match l with En => is_sesotho t | St => false end then St else l)
  = resolved_lang l t.
Proof. destruct l; simpl; [destruct (is_sesotho t)|]; reflexivity. Qed.

(** The part of the handler after the guard returns a non-empty reply with
    the disclaimer of the resolved language, and its calls fit the
    request. *)
Lemma answer_returns (E : env) (s : string) (l : lang) :
  close_matches_sound E ->
  returns (call_ok l (str_strip s)) (answer E s l)
    (fun out =>
       exists reply,
         out = (reply ++ disclaimer (resolved_lang l (str_strip s)))%string
         /\ reply <> "").
Proof.
  intros Hs. unfold answer. cbv zeta.
  apply (returns_bind _ _ _
           (fun b => b = match l with
                        | En => is_sesotho (str_strip s)
                        | St => false
                        end)).
  { destruct l; [apply returns_invoke | apply returns_ret]; reflexivity. }
  intros sesotho ->. rewrite !resolved_lang_flip.
  destruct (matching_ok E (str_strip s) Hs) as [m Hm].
  apply (returns_bind _ _ _ (fun _ => True)).
  { apply (returns_invoke_result _ _ _ m); [exact Hm | reflexivity | exact I]. }
  intros [[[typ key] matched] q] _.
  apply (returns_bind _ _ _ (fun _ => True)).
  { destruct typ; [|apply returns_ret; exact I].
    destruct key as [k|]; [|apply returns_ret; exact I].
    destruct (truthy k); [|apply returns_ret; exact I].
    apply returns_invoke; [reflexivity | exact I]. }
  intros reply _.
  apply (returns_bind _ _ _ (fun _ => True)).
  { destruct (no_reply reply); [|apply returns_ret; exact I].
    destruct (qa_model E); [|apply returns_ret; exact I].
    apply returns_invoke; [reflexivity | exact I]. }
  intros reply' _.
  apply (returns_bind _ _ _ (fun _ => True)).
  { destruct (no_reply reply'); [|apply returns_ret; exact I].
    destruct (last_resort_key _) as [[k q']|]; [|apply returns_ret; exact I].
    apply returns_invoke; [reflexivity | exact I]. }
  intros reply'' _.
  apply returns_ret. eexists. split; [reflexivity|].
  apply final_reply_nonempty.
Qed.

(** ** Words *)





